(** * The magnifier transform and the AR session lifecycle of my-lovely-app

    A shallow embedding of the two pieces of logic of the application:

    - [src/app/filmscanning/page.tsx]: [getMagnifyParams] (the loupe's
      coordinate transform) and [updateDimensions] (the resize
      recomputation);
    - [src/app/blog/page.tsx]: [endARSession] (teardown), [launchAR]
      (the asynchronous set-up sequence with its outermost try/catch) and
      the placement protocol (select handler and fallback timer).

    JavaScript numbers are modelled as exact rationals extended with
    [Infinity], [-Infinity] and [NaN]: every operation is the IEEE 754
    operation without rounding and without overflow, and zero carries no
    sign (it behaves as [+0]). *)

From Stdlib Require Import QArith Qround Qminmax ZArith List Bool String Lia Lqa.
Import ListNotations.
Local Open Scope Q_scope.

(** ** JavaScript numbers *)

Module JS.

Inductive number : Type :=
| Fin (q : Q)
| PosInf
| NegInf
| NaN.

Definition isFinite (a : number) : bool :=
  match a with Fin _ => true | _ => false end.

(** [ToBoolean] on a number: [0] and [NaN] are falsy. *)
Definition truthy (a : number) : bool :=
  match a with
  | Fin q => negb (Qeq_bool q 0)
  | PosInf | NegInf => true
  | NaN => false
  end.

(** [a || b] on numbers. *)
Definition or_else (a b : number) : number := if truthy a then a else b.

(** [o?.f || b]: an absent operand is [undefined], which is falsy. *)
Definition opt_or_else (a : option number) (b : number) : number :=
  match a with
  | Some v => or_else v b
  | None => b
  end.

Definition neg (a : number) : number :=
  match a with
  | Fin q => Fin (- q)
  | PosInf => NegInf
  | NegInf => PosInf
  | NaN => NaN
  end.

(** The infinity whose sign is that of [q] (positive for [0 <= q]). *)
Definition inf_signed (q : Q) : number :=
  if Qle_bool 0 q then PosInf else NegInf.

Definition add (a b : number) : number :=
  match a, b with
  | NaN, _ | _, NaN => NaN
  | Fin p, Fin q => Fin (p + q)
  | PosInf, NegInf | NegInf, PosInf => NaN
  | PosInf, _ | _, PosInf => PosInf
  | NegInf, _ | _, NegInf => NegInf
  end.

Definition sub (a b : number) : number := add a (neg b).

Definition mul (a b : number) : number :=
  match a, b with
  | NaN, _ | _, NaN => NaN
  | Fin p, Fin q => Fin (p * q)
  | Fin p, PosInf | PosInf, Fin p =>
      if Qeq_bool p 0 then NaN else inf_signed p
  | Fin p, NegInf | NegInf, Fin p =>
      if Qeq_bool p 0 then NaN else neg (inf_signed p)
  | PosInf, PosInf | NegInf, NegInf => PosInf
  | PosInf, NegInf | NegInf, PosInf => NegInf
  end.

Definition div (a b : number) : number :=
  match a, b with
  | NaN, _ | _, NaN => NaN
  | Fin p, Fin q =>
      if Qeq_bool q 0
      then (if Qeq_bool p 0 then NaN else inf_signed p)
      else Fin (p / q)
  | Fin _, (PosInf | NegInf) => Fin 0
  | PosInf, Fin q => inf_signed q
  | NegInf, Fin q => neg (inf_signed q)
  | (PosInf | NegInf), (PosInf | NegInf) => NaN
  end.

(** [Math.max] and [Math.min] of two arguments. *)
Definition max (a b : number) : number :=
  match a, b with
  | NaN, _ | _, NaN => NaN
  | PosInf, _ | _, PosInf => PosInf
  | NegInf, x | x, NegInf => x
  | Fin p, Fin q => Fin (Qmax p q)
  end.

Definition min (a b : number) : number :=
  match a, b with
  | NaN, _ | _, NaN => NaN
  | NegInf, _ | _, NegInf => NegInf
  | PosInf, x | x, PosInf => x
  | Fin p, Fin q => Fin (Qmin p q)
  end.

(** [Math.floor]. *)
Definition floor (a : number) : number :=
  match a with
  | Fin q => Fin (inject_Z (Qfloor q))
  | other => other
  end.

(** Numeric equality up to the representation of a rational. *)
Definition eqv (a b : number) : Prop :=
  match a, b with
  | Fin p, Fin q => p == q
  | PosInf, PosInf | NegInf, NegInf | NaN, NaN => True
  | _, _ => False
  end.

(** [lo <= a <= hi] for a finite [a]. *)
Definition within (lo hi : Q) (a : number) : Prop :=
  match a with
  | Fin q => lo <= q /\ q <= hi
  | _ => False
  end.

End JS.

Import JS.
Declare Scope js_scope.
Delimit Scope js_scope with js.
Infix "/" := div : js_scope.
Infix "*" := mul : js_scope.
Infix "-" := sub : js_scope.
Infix "+" := add : js_scope.
Infix "||" := or_else : js_scope.
Infix "=~" := eqv (at level 70) : js_scope.

(** ** The magnifier: data model *)

Record Position : Type := { px : number; py : number }.

Record Dimensions : Type := { dwidth : number; dheight : number }.

Record MagnifyParams : Type := {
  x : number;
  y : number;
  scaleX : number;
  scaleY : number;
  sourceWidth : number;
  sourceHeight : number;
  centerX : number;
  centerY : number
}.

(** An [HTMLImageElement] is an object: two handles are the same image
    exactly when they are the same object, whatever their sizes.  The
    document maps every image object to its current [width] and
    [height]. *)
Definition ImageHandle : Type := nat.

Record HTMLImageElement : Type := { width : number; height : number }.

Definition Document : Type := ImageHandle -> HTMLImageElement.

(** [image !== referenceImage] for two present handles. *)
Definition not_same (a b : ImageHandle) : bool := negb (Nat.eqb a b).

Section Magnifier.

Variable dom : Document.

Definition getMagnifyParams
    (image : option ImageHandle)
    (referenceImage : option ImageHandle)
    (magnifierPosition : Position)
    (stageDimensions : option Dimensions)
    (magDimensions : option Dimensions)
    (zoomScale : option number) : option MagnifyParams :=
  match image with
  | None => None
  | Some image =>
      let safeZoomScale := opt_or_else zoomScale (Fin 0.5) in
      let safeStageWidth := opt_or_else (option_map dwidth stageDimensions) (Fin 400) in
      let safeStageHeight := opt_or_else (option_map dheight stageDimensions) (Fin 300) in
      let safeMagWidth := opt_or_else (option_map dwidth magDimensions) (Fin 400) in
      let safeMagHeight := opt_or_else (option_map dheight magDimensions) (Fin 400) in
      let referenceWidth :=
        match referenceImage with
        | Some r => width (dom r)
        | None => width (dom image)
        end in
      let referenceHeight :=
        match referenceImage with
        | Some r => height (dom r)
        | None => height (dom image)
        end in
      let centerX := (px magnifierPosition / (safeStageWidth / referenceWidth))%js in
      let centerY := (py magnifierPosition / (safeStageHeight / referenceHeight))%js in
      let sourceWidth := (safeMagWidth / safeZoomScale)%js in
      let sourceHeight := (safeMagHeight / safeZoomScale)%js in
      let sourceX :=
        max (Fin 0) (min (centerX - sourceWidth / Fin 2) (referenceWidth - sourceWidth))%js in
      let sourceY :=
        max (Fin 0) (min (centerY - sourceHeight / Fin 2) (referenceHeight - sourceHeight))%js in
      let rescale :=
        match referenceImage with
        | Some r => not_same image r
        | None => false
        end in
      if rescale then
        let scaleX := (width (dom image) / referenceWidth)%js in
        let scaleY := (height (dom image) / referenceHeight)%js in
        Some {| x := (sourceX * scaleX)%js;
                y := (sourceY * scaleY)%js;
                scaleX := (safeZoomScale / scaleX)%js;
                scaleY := (safeZoomScale / scaleY)%js;
                sourceWidth := sourceWidth;
                sourceHeight := sourceHeight;
                centerX := centerX;
                centerY := centerY |}
      else
        Some {| x := sourceX;
                y := sourceY;
                scaleX := safeZoomScale;
                scaleY := safeZoomScale;
                sourceWidth := sourceWidth;
                sourceHeight := sourceHeight;
                centerX := centerX;
                centerY := centerY |}
  end.

(** The divisors of the divisions [getMagnifyParams] evaluates, in
    evaluation order: the same bindings as above, listing the right
    operand of every [/]. *)
Definition getMagnifyParams_divisors
    (image : option ImageHandle)
    (referenceImage : option ImageHandle)
    (magnifierPosition : Position)
    (stageDimensions : option Dimensions)
    (magDimensions : option Dimensions)
    (zoomScale : option number) : list number :=
  match image with
  | None => []
  | Some image =>
      let safeZoomScale := opt_or_else zoomScale (Fin 0.5) in
      let safeStageWidth := opt_or_else (option_map dwidth stageDimensions) (Fin 400) in
      let safeStageHeight := opt_or_else (option_map dheight stageDimensions) (Fin 300) in
      let referenceWidth :=
        match referenceImage with
        | Some r => width (dom r)
        | None => width (dom image)
        end in
      let referenceHeight :=
        match referenceImage with
        | Some r => height (dom r)
        | None => height (dom image)
        end in
      let rescale :=
        match referenceImage with
        | Some r => not_same image r
        | None => false
        end in
      [ referenceWidth; (safeStageWidth / referenceWidth)%js;
        referenceHeight; (safeStageHeight / referenceHeight)%js;
        safeZoomScale; safeZoomScale; Fin 2; Fin 2 ]
      ++ (if rescale then
            [ referenceWidth; referenceHeight;
              (width (dom image) / referenceWidth)%js;
              (height (dom image) / referenceHeight)%js ]
          else [])
  end.

End Magnifier.

(** *** Vocabulary of the magnifier's properties *)

Definition positive (a : number) : Prop :=
  match a with Fin q => 0 < q | _ => False end.

Definition le_num (a b : number) : Prop :=
  match a, b with Fin p, Fin q => p <= q | _, _ => False end.

(** The pointer is strictly inside the displayed image. *)
Definition inside_displayed (pos : Position) (stage : Dimensions) : Prop :=
  match px pos, py pos, dwidth stage, dheight stage with
  | Fin mx, Fin my, Fin sw, Fin sh => (0 < mx /\ mx < sw) /\ (0 < my /\ my < sh)
  | _, _, _, _ => False
  end.

(** The sampled rectangle [[x, x+sourceWidth] x [y, y+sourceHeight]] lies
    in [[0, refW] x [0, refH]]. *)
Definition rect_within (refW refH : number) (r : MagnifyParams) : Prop :=
  (le_num (Fin 0) (x r) /\ le_num (x r + sourceWidth r)%js refW) /\
  (le_num (Fin 0) (y r) /\ le_num (y r + sourceHeight r)%js refH).

(** Every field is a finite number. *)
Definition finiteParams (r : MagnifyParams) : bool :=
  isFinite (x r) && isFinite (y r) && isFinite (scaleX r) && isFinite (scaleY r)
  && isFinite (sourceWidth r) && isFinite (sourceHeight r)
  && isFinite (centerX r) && isFinite (centerY r).

(** A finite divisor other than zero. *)
Definition nonzero (a : number) : Prop :=
  match a with Fin q => ~ q == 0 | _ => False end.

(** The image whose size is the reference size. *)
Definition referenceOf (dom : Document) (image : ImageHandle)
    (referenceImage : option ImageHandle) : HTMLImageElement :=
  match referenceImage with
  | Some r => dom r
  | None => dom image
  end.

Definition defaultStage : Dimensions := {| dwidth := Fin 400; dheight := Fin 300 |}.
Definition defaultMag : Dimensions := {| dwidth := Fin 400; dheight := Fin 400 |}.
Definition defaultZoom : number := Fin 0.5.

Definition orDefault {A : Type} (d : A) (o : option A) : A :=
  match o with Some v => v | None => d end.

(** A zero value replaced by its default, on rationals. *)
Definition zeroTo (d q : Q) : Q := if Qeq_bool q 0 then d else q.

Definition optPositive (o : option number) : Prop :=
  match o with Some v => positive v | None => True end.

Definition optPositiveDims (o : option Dimensions) : Prop :=
  match o with
  | Some d => positive (dwidth d) /\ positive (dheight d)
  | None => True
  end.

(** The statement of the containment property at one input: magnified
    image and reference image are the same object, zoom, stage and output
    dimensions are positive, the pointer is strictly inside the stage. *)
Definition sampled_rect_contained (dom : Document) (image : ImageHandle)
    (pos : Position) (stage mag : Dimensions) (zoom : number) : Prop :=
  positive zoom ->
  positive (dwidth stage) -> positive (dheight stage) ->
  positive (dwidth mag) -> positive (dheight mag) ->
  inside_displayed pos stage ->
  exists r,
    getMagnifyParams dom (Some image) (Some image) pos (Some stage) (Some mag) (Some zoom)
      = Some r
    /\ rect_within (width (dom image)) (height (dom image)) r.

(** The sampled rectangle of a result, read in the reference image's
    pixels, lies in [[0, referenceWidth] x [0, referenceHeight]].  The
    origin of a result is given in the magnified image's pixels,
    [imageWidth / referenceWidth] of them to a reference pixel (one to
    one when the magnified image is the reference). *)
Definition rect_within_reference (dom : Document) (image : ImageHandle)
    (referenceImage : option ImageHandle) (r : MagnifyParams) : Prop :=
  let reference := referenceOf dom image referenceImage in
  (le_num (Fin 0) (x r)
   /\ le_num (x r / (width (dom image) / width reference) + sourceWidth r)%js
        (width reference))
  /\ (le_num (Fin 0) (y r)
      /\ le_num (y r / (height (dom image) / height reference) + sourceHeight r)%js
           (height reference)).

(** The statement, at one input, that a valid clamped result is returned
    whichever of the optional inputs are absent: there is a result, and
    its sampled rectangle lies within the reference image. *)
Definition valid_clamped_result (dom : Document) (image : ImageHandle)
    (referenceImage : option ImageHandle) (pos : Position)
    (stage mag : option Dimensions) (zoom : option number) : Prop :=
  exists r,
    getMagnifyParams dom (Some image) referenceImage pos stage mag zoom = Some r
    /\ rect_within_reference dom image referenceImage r.

(** ** The resize recomputation *)

(** The container element, as far as [updateDimensions] reads it. *)
Record HTMLDivElement : Type := { offsetWidth : number }.

(** [updateDimensions]: the new value of the [stageDimensions] state, given
    the container ([stageRef.current]), the loaded image's dimensions and the
    current stage dimensions (kept on the early return). *)
Definition updateDimensions
    (stageRef : option HTMLDivElement)
    (imageDimensions : option Dimensions)
    (stageDimensions : Dimensions) : Dimensions :=
  match stageRef, imageDimensions with
  | Some current, Some imageDimensions =>
      let containerWidth := (offsetWidth current || Fin 400)%js in
      let imgWidth := (dwidth imageDimensions || Fin 600)%js in
      let imgHeight := (dheight imageDimensions || Fin 400)%js in
      let stageHeight :=
        (floor ((containerWidth * imgHeight) / imgWidth) || Fin 300)%js in
      {| dwidth := containerWidth; dheight := stageHeight |}
  | _, _ => stageDimensions
  end.

(** The statement of exact aspect preservation by the resize
    recomputation at one input. *)
Definition aspect_preserved (container : HTMLDivElement) (image old : Dimensions)
  : Prop :=
  positive (offsetWidth container) ->
  positive (dwidth image) -> positive (dheight image) ->
  let stage := updateDimensions (Some container) (Some image) old in
  dwidth stage = offsetWidth container
  /\ (dheight stage / dwidth stage =~ dheight image / dwidth image)%js.

(** ** The AR feature: state, effects and handlers *)

Module AR.

Local Open Scope string_scope.

Definition XRSession : Type := nat.
Definition XRHitTestSource : Type := nat.
Definition HTMLCanvasElement : Type := nat.

(** [useRef<XRHitTestSource | null | undefined>(undefined)]. *)
Inductive HitTestRef : Type :=
| Undefined
| Null
| Source (s : XRHitTestSource).

Record Vector3 : Type := { vx : Q; vy : Q; vz : Q }.

Record Quaternion : Type := { qx : Q; qy : Q; qz : Q; qw : Q }.

(** [XRRigidTransform]: what a pose's [transform] carries. *)
Record XRRigidTransform : Type := {
  position : Vector3;
  orientation : Quaternion
}.

(** A hit-test result; [getPose(localRef)] may be [null]. *)
Record XRHitTestResult : Type := { getPose : option XRRigidTransform }.

(** The rotation of an [Object3D], kept symbolic: the identity of a new
    object, a quaternion copied into it, or the rotation [lookAt] computes
    for an object at [eye] turned towards [target]. *)
Inductive Rotation : Type :=
| Identity
| Copied (q : Quaternion)
| LookAt (eye target : Vector3).

Record Object3D : Type := {
  obj_position : Vector3;
  obj_rotation : Rotation
}.

(** Calls into the platform that release a resource. *)
Inductive Call : Type :=
| session_end (s : XRSession)
| cancelAnimationFrame (id : nat)
| removeChild (c : HTMLCanvasElement)
| hitTestSource_cancel (s : XRHitTestSource)
| clearTimeout.

(** The four [useRef] cells of the component. *)
Record Refs : Type := {
  xrSessionRef : option XRSession;
  frameRef : option nat;
  canvasRef : option HTMLCanvasElement;
  hitTestSourceRef : HitTestRef
}.

(** The variables of one [launchAR] call that its listeners close over.
    [fallbackId] is the deadline of the pending fallback timer, if any. *)
Record Closure : Type := {
  placed : bool;
  pictureGroup : Object3D;
  camera_position : Vector3;
  diag_innerText : string;
  h : Q;
  fallbackId : option N
}.

(** The part of the browser the feature touches: the children the
    feature gives [document.body] (its canvases in [body], and in
    [overlays] the number of diagnostic [div]s, which are appended and
    never referred to by the document again), the console, the clock in
    milliseconds, the kinds of callbacks registered on the session, and
    the release calls made. *)
Record Browser : Type := {
  body : list HTMLCanvasElement;
  console : list string;
  now : N;
  listeners : list string;
  calls : list Call;
  overlays : nat
}.

Record World : Type := {
  refs : Refs;
  arSessionActive : bool;
  closure : Closure;
  browser : Browser
}.

(** *** Field updates *)

Definition with_refs (f : Refs -> Refs) (w : World) : World :=
  {| refs := f (refs w); arSessionActive := arSessionActive w;
     closure := closure w; browser := browser w |}.

Definition with_closure (f : Closure -> Closure) (w : World) : World :=
  {| refs := refs w; arSessionActive := arSessionActive w;
     closure := f (closure w); browser := browser w |}.

Definition with_browser (f : Browser -> Browser) (w : World) : World :=
  {| refs := refs w; arSessionActive := arSessionActive w;
     closure := closure w; browser := f (browser w) |}.

Definition set_xrSessionRef (v : option XRSession) (r : Refs) : Refs :=
  {| xrSessionRef := v; frameRef := frameRef r;
     canvasRef := canvasRef r; hitTestSourceRef := hitTestSourceRef r |}.

Definition set_frameRef (v : option nat) (r : Refs) : Refs :=
  {| xrSessionRef := xrSessionRef r; frameRef := v;
     canvasRef := canvasRef r; hitTestSourceRef := hitTestSourceRef r |}.

Definition set_canvasRef (v : option HTMLCanvasElement) (r : Refs) : Refs :=
  {| xrSessionRef := xrSessionRef r; frameRef := frameRef r;
     canvasRef := v; hitTestSourceRef := hitTestSourceRef r |}.

Definition set_hitTestSourceRef (v : HitTestRef) (r : Refs) : Refs :=
  {| xrSessionRef := xrSessionRef r; frameRef := frameRef r;
     canvasRef := canvasRef r; hitTestSourceRef := v |}.

Definition set_placed (v : bool) (c : Closure) : Closure :=
  {| placed := v; pictureGroup := pictureGroup c;
     camera_position := camera_position c;
     diag_innerText := diag_innerText c; h := h c;
     fallbackId := fallbackId c |}.

Definition set_pictureGroup (v : Object3D) (c : Closure) : Closure :=
  {| placed := placed c; pictureGroup := v;
     camera_position := camera_position c;
     diag_innerText := diag_innerText c; h := h c;
     fallbackId := fallbackId c |}.

Definition set_camera_position (v : Vector3) (c : Closure) : Closure :=
  {| placed := placed c; pictureGroup := pictureGroup c;
     camera_position := v;
     diag_innerText := diag_innerText c; h := h c;
     fallbackId := fallbackId c |}.

Definition set_diag_innerText (v : string) (c : Closure) : Closure :=
  {| placed := placed c; pictureGroup := pictureGroup c;
     camera_position := camera_position c;
     diag_innerText := v; h := h c;
     fallbackId := fallbackId c |}.

Definition set_h (v : Q) (c : Closure) : Closure :=
  {| placed := placed c; pictureGroup := pictureGroup c;
     camera_position := camera_position c;
     diag_innerText := diag_innerText c; h := v;
     fallbackId := fallbackId c |}.

Definition set_fallbackId (v : option N) (c : Closure) : Closure :=
  {| placed := placed c; pictureGroup := pictureGroup c;
     camera_position := camera_position c;
     diag_innerText := diag_innerText c; h := h c;
     fallbackId := v |}.

Definition set_body (v : list HTMLCanvasElement) (b : Browser) : Browser :=
  {| body := v; console := console b; now := now b;
     listeners := listeners b; calls := calls b;
     overlays := overlays b |}.

Definition set_console (v : list string) (b : Browser) : Browser :=
  {| body := body b; console := v; now := now b;
     listeners := listeners b; calls := calls b;
     overlays := overlays b |}.

Definition set_now (v : N) (b : Browser) : Browser :=
  {| body := body b; console := console b; now := v;
     listeners := listeners b; calls := calls b;
     overlays := overlays b |}.

Definition set_listeners (v : list string) (b : Browser) : Browser :=
  {| body := body b; console := console b; now := now b;
     listeners := v; calls := calls b; overlays := overlays b |}.

Definition set_calls (v : list Call) (b : Browser) : Browser :=
  {| body := body b; console := console b; now := now b;
     listeners := listeners b; calls := v; overlays := overlays b |}.

Definition set_overlays (v : nat) (b : Browser) : Browser :=
  {| body := body b; console := console b; now := now b;
     listeners := listeners b; calls := calls b; overlays := v |}.

Definition set_arSessionActive (v : bool) (w : World) : World :=
  {| refs := refs w; arSessionActive := v;
     closure := closure w; browser := browser w |}.

(** *** Computations that may throw

    A computation returns or throws, and in both cases leaves a world
    behind: what was written before a [throw] stays written. *)

Inductive Outcome (A : Type) : Type :=
| Returned (a : A)
| Thrown (e : string).

Arguments Returned {A} a.
Arguments Thrown {A} e.

Definition M (A : Type) : Type := World -> Outcome A * World.

Definition ret {A : Type} (a : A) : M A := fun w => (Returned a, w).

Definition throw {A : Type} (e : string) : M A := fun w => (Thrown e, w).

Definition bind {A B : Type} (c : M A) (k : A -> M B) : M B :=
  fun w =>
    match c w with
    | (Returned a, w') => k a w'
    | (Thrown e, w') => (Thrown e, w')
    end.

(** [try { body } catch (err) { handler(err) }]. *)
Definition try_catch {A : Type} (body : M A) (handler : string -> M A) : M A :=
  fun w =>
    match body w with
    | (Returned a, w') => (Returned a, w')
    | (Thrown e, w') => handler e w'
    end.

Definition read {A : Type} (f : World -> A) : M A := fun w => (Returned (f w), w).

Definition update (f : World -> World) : M unit := fun w => (Returned tt, f w).

Definition when (b : bool) (c : M unit) : M unit := if b then c else ret tt.

Notation "x <- c ;; k" := (bind c (fun x => k))
  (at level 61, c at next level, right associativity).
Notation "c ;; k" := (bind c (fun _ => k))
  (at level 61, right associativity).

(** [o.m(...)] on a nullable [o]: a [TypeError] when [o] is [null]. *)
Definition deref {A : Type} (o : option A) : M A :=
  match o with
  | Some a => ret a
  | None => throw "TypeError"
  end.

(** An awaited platform step: it resolves, or rejects with [e]. *)
Definition await (resolves : bool) (e : string) : M unit :=
  if resolves then ret tt else throw e.

Definition await_value {A : Type} (result : option A) (e : string) : M A :=
  match result with
  | Some a => ret a
  | None => throw e
  end.

Definition isSome {A : Type} (o : option A) : bool :=
  match o with Some _ => true | None => false end.

(** [logDebug]: the line goes to the console (and to the debug panel, which
    shows the last 200 of them).  Only the leading literal of each message
    is kept. *)
Definition logDebug (msg : string) : M unit :=
  update (with_browser (fun b => set_console (console b ++ [msg]) b)).

(** A release call into the platform: it is recorded and taken to return
    normally. *)
Definition call (c : Call) : M unit :=
  update (with_browser (fun b => set_calls (calls b ++ [c]) b)).

(** [c.parentElement] for a canvas: [document.body] when it is one of its
    children. *)
Definition parentElement (c : HTMLCanvasElement) (w : World) : option unit :=
  if existsb (Nat.eqb c) (body (browser w)) then Some tt else None.

Definition body_removeChild (c : HTMLCanvasElement) : M unit :=
  update (with_browser (fun b => set_body (List.remove Nat.eq_dec c (body b)) b)) ;;
  call (removeChild c).

Definition body_appendChild (c : HTMLCanvasElement) : M unit :=
  update (with_browser
            (fun b => set_body (List.remove Nat.eq_dec c (body b) ++ [c]) b)).

(** [document.body.appendChild(diag)] for the diagnostic [div] a launch
    has just created: [document.body] has one more such child. *)
Definition body_appendChild_overlay : M unit :=
  update (with_browser (fun b => set_overlays (S (overlays b)) b)).

(** *** Teardown *)

Definition endARSession : M unit :=
  current <- read (fun w => xrSessionRef (refs w)) ;;
  when (isSome current)
    (logDebug "ending XRSession" ;;
     session <- (o <- read (fun w => xrSessionRef (refs w)) ;; deref o) ;;
     call (session_end session) ;;
     update (with_refs (set_xrSessionRef None))) ;;
  current <- read (fun w => frameRef (refs w)) ;;
  match current with
  | Some id =>
      call (cancelAnimationFrame id) ;;
      update (with_refs (set_frameRef None))
  | None => ret tt
  end ;;
  attached <- read (fun w => match canvasRef (refs w) with
                             | Some c => isSome (parentElement c w)
                             | None => false
                             end) ;;
  when attached
    (canvas <- (o <- read (fun w => canvasRef (refs w)) ;; deref o) ;;
     _ <- (o <- read (parentElement canvas) ;; deref o) ;;
     body_removeChild canvas ;;
     update (with_refs (set_canvasRef None))) ;;
  current <- read (fun w => hitTestSourceRef (refs w)) ;;
  match current with
  | Source s =>
      call (hitTestSource_cancel s) ;;
      update (with_refs (set_hitTestSourceRef Null))
  | Undefined | Null => ret tt
  end ;;
  update (set_arSessionActive false).

(** *** Launch *)

Record Size : Type := { widthCm : Q; heightCm : Q }.

(** What the platform answers to each fallible step of the set-up. *)
Record Platform : Type := {
  getUserMedia : bool;
  requestSession : option XRSession;
  createElement_canvas : HTMLCanvasElement;
  getContext : option unit;
  makeXRCompatible : bool;
  new_XRWebGLLayer : bool;
  updateRenderState : bool;
  new_WebGLRenderer : bool;
  requestReferenceSpace_local : bool;
  requestReferenceSpace_viewer : bool;
  requestHitTestSource : option XRHitTestSource
}.

Definition origin : Vector3 := {| vx := 0; vy := 0; vz := 0 |}.

(** The body of the [try] block.  Every [await] is a point where the
    platform answers; the routine is run to its end in one piece, with no
    other event handled in between. *)
Definition launchAR_try (platform : Platform) (size : Size) : M unit :=
  logDebug "1) requesting camera permission" ;;
  await (getUserMedia platform) "NotAllowedError" ;;
  logDebug "→ camera granted" ;;
  logDebug "2) requesting XRSession" ;;
  session <- await_value (requestSession platform) "NotSupportedError" ;;
  update (with_refs (set_xrSessionRef (Some session))) ;;
  update (set_arSessionActive true) ;;
  logDebug "→ XRSession started" ;;
  update (with_closure (set_diag_innerText "AR initializing…")) ;;
  body_appendChild_overlay ;;
  logDebug "3) diag overlay added" ;;
  let canvas := createElement_canvas platform in
  body_appendChild canvas ;;
  update (with_refs (set_canvasRef (Some canvas))) ;;
  logDebug "4) canvas added" ;;
  _ <- deref (getContext platform) ;;
  await (makeXRCompatible platform) "InvalidStateError" ;;
  logDebug "→ gl.makeXRCompatible()" ;;
  await (new_XRWebGLLayer platform) "InvalidStateError" ;;
  await (updateRenderState platform) "InvalidStateError" ;;
  logDebug "5) XRWebGLLayer bound" ;;
  await (new_WebGLRenderer platform) "Error" ;;
  logDebug "6) Three.js renderer ready" ;;
  update (with_closure (set_camera_position {| vx := 0; vy := 1.6; vz := 3 |})) ;;
  await (requestReferenceSpace_local platform) "NotSupportedError" ;;
  await (requestReferenceSpace_viewer platform) "NotSupportedError" ;;
  logDebug "7) refe rence spaces OK" ;;
  hitSource <- await_value (requestHitTestSource platform) "NotSupportedError" ;;
  update (with_refs (set_hitTestSourceRef (Source hitSource))) ;;
  logDebug "8) hit-test source OK" ;;
  update (with_closure
            (set_pictureGroup {| obj_position := origin; obj_rotation := Identity |})) ;;
  logDebug "9) pictureGroup created" ;;
  update (with_closure (set_h (heightCm size * 0.01))) ;;
  update (with_closure (set_placed false)) ;;
  update (with_browser (fun b => set_listeners ("select" :: listeners b) b)) ;;
  update (fun w => with_closure (set_fallbackId (Some (now (browser w) + 5000)%N)) w) ;;
  update (with_browser (fun b => set_listeners ("frame" :: listeners b) b)) ;;
  update (with_browser (fun b => set_listeners ("end" :: listeners b) b)).

Definition launchAR (isARSupported : bool) (platform : Platform) (size : Size)
  : M unit :=
  logDebug "→ launchAR()" ;;
  if negb isARSupported then logDebug "← AR not supported"
  else
    try_catch (launchAR_try platform size)
      (fun err => logDebug "❌ launchAR error" ;; endARSession).

(** *** Listeners and the fallback timer *)

Definition onSelect (results : list XRHitTestResult) : M unit :=
  logDebug "select fired" ;;
  source <- read (fun w => hitTestSourceRef (refs w)) ;;
  match source with
  | Source _ => ret tt
  | Undefined | Null => throw "TypeError"
  end ;;
  logDebug "hit-test results:" ;;
  isPlaced <- read (fun w => placed (closure w)) ;;
  when (negb (Nat.eqb (List.length results) 0) && negb isPlaced)
    (update (with_closure (set_placed true)) ;;
     pose <- deref (match results with
                    | r :: _ => getPose r
                    | [] => None
                    end) ;;
     logDebug "→ placing at" ;;
     update (with_closure
               (set_pictureGroup {| obj_position := position pose;
                                    obj_rotation := Copied (orientation pose) |})) ;;
     update (with_closure (set_diag_innerText "Placed!"))).

Definition fallbackPose (camera : Vector3) (h : Q) : Object3D :=
  let eyeY := vy camera in
  let p := {| vx := 0; vy := eyeY - h / 2; vz := - (2) |} in
  {| obj_position := p; obj_rotation := LookAt p camera |}.

Definition onFallback : M unit :=
  isPlaced <- read (fun w => placed (closure w)) ;;
  when (negb isPlaced)
    (update (with_closure (set_placed true)) ;;
     logDebug "⚠ fallback placement" ;;
     update (fun w => with_closure
                        (set_pictureGroup
                           (fallbackPose (camera_position (closure w)) (h (closure w)))) w) ;;
     update (with_closure (set_diag_innerText "Fallback placed"))).

(** [onXRFrame]: the next callback is registered first and its id stored;
    a frame with a viewer pose but no viewport returns before rendering.
    Rendering lets the renderer's XR manager move the camera: the frame
    carries the position it leaves in [camera.position]. *)
Definition onXRFrame (id : nat) (viewport_missing : bool) (rendered : Vector3)
  : M unit :=
  update (with_refs (set_frameRef (Some id))) ;;
  if viewport_missing then logDebug "vp is null"
  else update (with_closure (set_camera_position rendered)).

Definition onEnd : M unit :=
  logDebug "XRSession ended" ;;
  update (with_closure (set_fallbackId None)) ;;
  call clearTimeout ;;
  endARSession.

Definition closeImageModal : M unit := endARSession.

(** *** The event loop *)

Inductive Event : Type :=
| select (results : list XRHitTestResult)
| frame (id : nat) (viewport_missing : bool) (rendered : Vector3)
| session_ended
| modal_closed.

Definition registered (kind : string) (w : World) : bool :=
  existsb (String.eqb kind) (listeners (browser w)).

Definition dispatch (e : Event) : M unit :=
  match e with
  | select results =>
      on <- read (registered "select") ;; when on (onSelect results)
  | frame id viewport_missing rendered =>
      on <- read (registered "frame") ;;
      when on (onXRFrame id viewport_missing rendered)
  | session_ended =>
      on <- read (registered "end") ;; when on onEnd
  | modal_closed => closeImageModal
  end.

(** A pending timer whose deadline has passed fires once. *)
Definition fire_timers (w : World) : World :=
  match fallbackId (closure w) with
  | Some deadline =>
      if (deadline <=? now (browser w))%N
      then snd (onFallback (with_closure (set_fallbackId None) w))
      else w
  | None => w
  end.

(** One turn of the event loop: [delay] milliseconds pass, due timers
    fire, then the event is handled.  An exception thrown by a listener is
    reported and the loop goes on with the world the listener left. *)
Definition turn (w : World) (e : N * Event) : World :=
  let w1 := with_browser (fun b => set_now (now b + fst e)%N b) w in
  snd (dispatch (snd e) (fire_timers w1)).

Definition run (events : list (N * Event)) (w : World) : World :=
  fold_left turn events w.

(** The milliseconds a trace takes. *)
Definition elapsed (events : list (N * Event)) : N :=
  fold_right (fun e t => (fst e + t)%N) 0%N events.

(** *** Vocabulary of the AR properties *)

Definition nullish (r : HitTestRef) : bool :=
  match r with Undefined | Null => true | Source _ => false end.

(** None of the four refs holds a handle. *)
Definition handles_released (w : World) : Prop :=
  xrSessionRef (refs w) = None
  /\ frameRef (refs w) = None
  /\ canvasRef (refs w) = None
  /\ nullish (hitTestSourceRef (refs w)) = true.

(** The canvas held by [canvasRef], if any, is a child of
    [document.body]: [launchAR] stores it right after appending it, and
    only [endARSession] removes it, clearing the ref. *)
Definition canvas_in_document (w : World) : Prop :=
  forall c, canvasRef (refs w) = Some c -> In c (body (browser w)).

(** Every fallible step of the set-up succeeds. *)
Definition all_steps_succeed (platform : Platform) : bool :=
  getUserMedia platform
  && isSome (requestSession platform)
  && isSome (getContext platform)
  && makeXRCompatible platform
  && new_XRWebGLLayer platform
  && updateRenderState platform
  && new_WebGLRenderer platform
  && requestReferenceSpace_local platform
  && requestReferenceSpace_viewer platform
  && isSome (requestHitTestSource platform).

(** A session that has just been set up: nothing is placed, the fallback
    timer is due 5000 ms from now, the select listener is registered and
    the hit-test source is held. *)
Definition ready (w : World) : Prop :=
  placed (closure w) = false
  /\ fallbackId (closure w) = Some (now (browser w) + 5000)%N
  /\ registered "select" w = true
  /\ nullish (hitTestSourceRef (refs w)) = false.

(** A session still waiting for its placement, with the fallback timer
    due at [deadline]. *)
Definition waiting (deadline : N) (w : World) : Prop :=
  placed (closure w) = false
  /\ fallbackId (closure w) = Some deadline
  /\ registered "select" w = true
  /\ nullish (hitTestSourceRef (refs w)) = false
  /\ (now (browser w) < deadline)%N.

(** Events that place nothing and end nothing: a select gesture without a
    hit-test result, or an animation frame. *)
Definition quiet (e : N * Event) : Prop :=
  match snd e with
  | select [] | frame _ _ _ => True
  | _ => False
  end.

(** The fallback timer is pending, due at [deadline], and nothing is
    placed yet. *)
Definition pending (deadline : N) (w : World) : Prop :=
  placed (closure w) = false /\ fallbackId (closure w) = Some deadline.

(** A point directly in front of the camera at eye height, for a camera
    that looks down the negative z axis as the one [launchAR] creates
    does: straight ahead of the camera's position, at its height. *)
Definition in_front_at_eye_height (camera p : Vector3) : Prop :=
  vx p == vx camera /\ vy p == vy camera /\ vz p < vz camera.

(** The statement, on one trace, that the plane ends directly in front of
    the camera at eye height. *)
Definition placed_in_front_at_eye_height (events : list (N * Event)) (w : World)
  : Prop :=
  let final := run events w in
  in_front_at_eye_height (camera_position (closure final))
    (obj_position (pictureGroup (closure final))).

(** The number of placements the console has recorded. *)
Definition placements (w : World) : nat :=
  count_occ string_dec (console (browser w)) "→ placing at"
  + count_occ string_dec (console (browser w)) "⚠ fallback placement".

Definition initial : World :=
  {| refs := {| xrSessionRef := None; frameRef := None;
                canvasRef := None; hitTestSourceRef := Undefined |};
     arSessionActive := false;
     closure := {| placed := false;
                   pictureGroup := {| obj_position := origin;
                                      obj_rotation := Identity |};
                   camera_position := origin;
                   diag_innerText := "";
                   h := 0;
                   fallbackId := None |};
     browser := {| body := []; console := []; now := 0%N;
                   listeners := []; calls := []; overlays := 0%nat |} |}.

End AR.

(** ** Sample data

    Concrete documents, platforms and worlds on which the definitions
    above are run. *)

Definition large_doc : Document :=
  fun _ => {| width := Fin 3000; height := Fin 2000 |}.

Definition two_sizes_doc : Document :=
  fun i => match i with
           | O => {| width := Fin 3000; height := Fin 2000 |}
           | 1%nat => {| width := Fin 1500; height := Fin 1000 |}
           | _ => {| width := Fin 6000; height := Fin 3000 |}
           end.

Import AR.

(** A platform on which the local reference space is refused: the session
    and the canvas are acquired, the frame id and the hit-test source are
    not. *)
Definition refusing_platform : Platform :=
  {| getUserMedia := true;
     requestSession := Some 7%nat;
     createElement_canvas := 3%nat;
     getContext := Some tt;
     makeXRCompatible := true;
     new_XRWebGLLayer := true;
     updateRenderState := true;
     new_WebGLRenderer := true;
     requestReferenceSpace_local := false;
     requestReferenceSpace_viewer := true;
     requestHitTestSource := Some 5%nat |}.

Definition print_8x10 : Size := {| widthCm := 25.4; heightCm := 20.32 |}.

Definition partly_set_up : World :=
  snd (launchAR_try refusing_platform print_8x10 initial).

Definition willing_platform : Platform :=
  {| getUserMedia := true;
     requestSession := Some 7%nat;
     createElement_canvas := 3%nat;
     getContext := Some tt;
     makeXRCompatible := true;
     new_XRWebGLLayer := true;
     updateRenderState := true;
     new_WebGLRenderer := true;
     requestReferenceSpace_local := true;
     requestReferenceSpace_viewer := true;
     requestHitTestSource := Some 5%nat |}.

Definition set_up : World :=
  snd (launchAR true willing_platform print_8x10 initial).

Definition floor_pose : XRRigidTransform :=
  {| position := {| vx := 0.5; vy := 0; vz := - (1.5) |};
     orientation := {| qx := 0; qy := 0; qz := 0; qw := 1 |} |}.

Definition wall_pose : XRRigidTransform :=
  {| position := {| vx := 0; vy := 1; vz := - (3) |};
     orientation := {| qx := 0; qy := 1; qz := 0; qw := 0 |} |}.

Definition standing : Vector3 := {| vx := 0.2; vy := 1.5; vz := 0.1 |}.

(** * The rest of the two pages *)

(** ** More of JavaScript's numbers *)

(** [isNaN]. *)
Definition isNaN (a : number) : bool :=
  match a with NaN => true | _ => false end.

(** [a === b] on numbers: [NaN] is not equal to itself. *)
Definition strict_eq (a b : number) : bool :=
  match a, b with
  | Fin p, Fin q => Qeq_bool p q
  | PosInf, PosInf | NegInf, NegInf => true
  | _, _ => false
  end.

(** The comparison React makes between two values of a dependency
    ([Object.is]): as [===], except that [NaN] is itself. *)
Definition same_value (a b : number) : bool :=
  match a, b with
  | NaN, NaN => true
  | _, _ => strict_eq a b
  end.

(** ** The views of the film-scanning page *)

(** *** [lensSize] and the rectangle of [MainImageView] *)

Definition lensSize (dom : Document) (image1 : option ImageHandle)
    (magDimensions : Dimensions) (zoomScale : number)
    (stageDimensions : Dimensions) : Dimensions :=
  match image1 with
  | None => {| dwidth := Fin 50; dheight := Fin 50 |}
  | Some image1 =>
      let sourceWidth := (dwidth magDimensions / zoomScale)%js in
      let sourceHeight := (dheight magDimensions / zoomScale)%js in
      let stageScaleX := (dwidth stageDimensions / width (dom image1))%js in
      let stageScaleY := (dheight stageDimensions / height (dom image1))%js in
      {| dwidth := if isNaN (sourceWidth * stageScaleX)%js
                   then Fin 50 else (sourceWidth * stageScaleX)%js;
         dheight := if isNaN (sourceHeight * stageScaleY)%js
                    then Fin 50 else (sourceHeight * stageScaleY)%js |}
  end.

(** The props of a Konva [Rect] that the views set. *)
Record RectProps : Type := {
  rect_x : number;
  rect_y : number;
  rect_width : number;
  rect_height : number
}.

(** What [MainImageView] renders: the loading placeholder, or the stage
    with the image stretched over it and, when asked, the red rectangle
    around the pointer. *)
Inductive MainImageViewOutput : Type :=
| MainPlaceholder
| MainStage (paddingBottomPercent : number) (stageWidth stageHeight : number)
            (rectangle : option RectProps).

Definition MainImageView (image : option ImageHandle) (loading : bool)
    (stageDimensions : Dimensions) (showRectangle : bool)
    (magnifierPosition : Position) (lensSize : Dimensions)
  : MainImageViewOutput :=
  match loading, image with
  | false, Some _ =>
      MainStage
        (dheight stageDimensions / dwidth stageDimensions * Fin 100)%js
        (dwidth stageDimensions) (dheight stageDimensions)
        (if showRectangle
         then Some {| rect_x := (px magnifierPosition - dwidth lensSize / Fin 2)%js;
                      rect_y := (py magnifierPosition - dheight lensSize / Fin 2)%js;
                      rect_width := dwidth lensSize;
                      rect_height := dheight lensSize |}
         else None)
  | _, _ => MainPlaceholder
  end.

(** *** [MagnifiedViewContent] and its memo comparison *)

Record MagnifiedViewContentProps : Type := {
  mvc_image : ImageHandle;
  mvc_params : MagnifyParams;
  mvc_width : number;
  mvc_height : number
}.

(** What the content renders: a stage of the given size holding one
    rectangle at the origin, of the same size, filled with the image under
    the pattern scale and offset. *)
Record PatternRect : Type := {
  stage_width : number;
  stage_height : number;
  pattern_x : number;
  pattern_y : number;
  pattern_width : number;
  pattern_height : number;
  fillPatternImage : ImageHandle;
  fillPatternScale : number * number;
  fillPatternOffset : number * number
}.

Definition MagnifiedViewContent (props : MagnifiedViewContentProps) : PatternRect :=
  {| stage_width := mvc_width props;
     stage_height := mvc_height props;
     pattern_x := Fin 0;
     pattern_y := Fin 0;
     pattern_width := mvc_width props;
     pattern_height := mvc_height props;
     fillPatternImage := mvc_image props;
     fillPatternScale := (scaleX (mvc_params props), scaleY (mvc_params props));
     fillPatternOffset := (x (mvc_params props), y (mvc_params props)) |}.

(** The comparison given to [React.memo]: when it answers [true] the
    previous rendering is kept. *)
Definition MagnifiedViewContent_areEqual
    (prevProps nextProps : MagnifiedViewContentProps) : bool :=
  Nat.eqb (mvc_image prevProps) (mvc_image nextProps)
  && strict_eq (mvc_width prevProps) (mvc_width nextProps)
  && strict_eq (mvc_height prevProps) (mvc_height nextProps)
  && strict_eq (x (mvc_params prevProps)) (x (mvc_params nextProps))
  && strict_eq (y (mvc_params prevProps)) (y (mvc_params nextProps))
  && strict_eq (scaleX (mvc_params prevProps)) (scaleX (mvc_params nextProps))
  && strict_eq (scaleY (mvc_params prevProps)) (scaleY (mvc_params nextProps)).

(** Two renderings that show the same thing. *)
Definition same_rendering (a b : PatternRect) : Prop :=
  (stage_width a =~ stage_width b)%js
  /\ (stage_height a =~ stage_height b)%js
  /\ (pattern_x a =~ pattern_x b)%js
  /\ (pattern_y a =~ pattern_y b)%js
  /\ (pattern_width a =~ pattern_width b)%js
  /\ (pattern_height a =~ pattern_height b)%js
  /\ fillPatternImage a = fillPatternImage b
  /\ (fst (fillPatternScale a) =~ fst (fillPatternScale b))%js
  /\ (snd (fillPatternScale a) =~ snd (fillPatternScale b))%js
  /\ (fst (fillPatternOffset a) =~ fst (fillPatternOffset b))%js
  /\ (snd (fillPatternOffset a) =~ snd (fillPatternOffset b))%js.

(** *** [MagnifiedView] *)

Inductive MagnifiedViewOutput : Type :=
| Loader
| Content (props : MagnifiedViewContentProps).

Definition MagnifiedView (dom : Document)
    (image referenceImage : option ImageHandle)
    (magnifierPosition : Position)
    (stageDimensions magDimensions : option Dimensions)
    (zoomScale : option number) (loading : bool) : MagnifiedViewOutput :=
  let params :=
    match image with
    | None => None
    | Some _ =>
        getMagnifyParams dom image referenceImage magnifierPosition
          stageDimensions
          (Some (orDefault {| dwidth := Fin 400; dheight := Fin 400 |} magDimensions))
          (Some (opt_or_else zoomScale (Fin 0.5)))
    end in
  match loading, image, params with
  | false, Some image, Some params =>
      Content {| mvc_image := image;
                 mvc_params := params;
                 mvc_width := opt_or_else (option_map dwidth magDimensions) (Fin 400);
                 mvc_height := opt_or_else (option_map dheight magDimensions) (Fin 400) |}
  | _, _, _ => Loader
  end.

(** *** [useImageLoader] *)

Module ImageLoader.

Local Open Scope string_scope.

(** The four pieces of state of the hook, the image objects whose
    [onload] and [onerror] are set, and the image of the cleanup function
    the last run of the effect returned (none before the first effect,
    once the cleanup has run, and for an empty URL, where the effect
    returns no cleanup). *)
Record State : Type := {
  image : option ImageHandle;
  loading : bool;
  error : option string;
  dimensions : option Dimensions;
  listening : list ImageHandle;
  to_clean : option ImageHandle
}.

Definition initial : State :=
  {| image := None; loading := true; error := None; dimensions := None;
     listening := []; to_clean := None |}.

Inductive Event : Type :=
| effect (imageUrl : string) (img : ImageHandle)
| load (img : ImageHandle) (naturalWidth naturalHeight : number)
| fail (img : ImageHandle)
| unmount.

(** The cleanup the effect returned, if it returned one: both handlers
    of its image are set to [null]. *)
Definition cleanup (s : State) : State :=
  match to_clean s with
  | Some img =>
      {| image := image s; loading := loading s; error := error s;
         dimensions := dimensions s;
         listening := List.remove Nat.eq_dec img (listening s);
         to_clean := None |}
  | None => s
  end.

(** The effect, run for [imageUrl] after the previous cleanup; [img] is
    the object [new window.Image()] returns.  For an empty URL the effect
    returns before creating an image, and returns no cleanup. *)
Definition run_effect (imageUrl : string) (img : ImageHandle) (s : State) : State :=
  if String.eqb imageUrl ""
  then {| image := image s; loading := false;
          error := Some "No image URL provided";
          dimensions := dimensions s; listening := listening s;
          to_clean := None |}
  else {| image := image s; loading := loading s; error := error s;
          dimensions := dimensions s; listening := img :: listening s;
          to_clean := Some img |}.

Definition onload (img : ImageHandle) (naturalWidth naturalHeight : number)
    (s : State) : State :=
  {| image := Some img;
     loading := false;
     error := error s;
     dimensions := Some {| dwidth := (naturalWidth || Fin 600)%js;
                           dheight := (naturalHeight || Fin 400)%js |};
     listening := listening s; to_clean := to_clean s |}.

Definition onerror (s : State) : State :=
  {| image := image s; loading := false;
     error := Some "Failed to load image";
     dimensions := dimensions s; listening := listening s;
     to_clean := to_clean s |}.

Definition handlers_set (img : ImageHandle) (s : State) : bool :=
  existsb (Nat.eqb img) (listening s).

Definition step (s : State) (e : Event) : State :=
  match e with
  | effect imageUrl img => run_effect imageUrl img (cleanup s)
  | load img naturalWidth naturalHeight =>
      if handlers_set img s then onload img naturalWidth naturalHeight s else s
  | fail img => if handlers_set img s then onerror s else s
  | unmount => cleanup s
  end.

Definition run (events : list Event) (s : State) : State :=
  fold_left step events s.

(** A completion of some image: its [load] or [error] event. *)
Definition completion (e : Event) : bool :=
  match e with
  | load _ _ _ | fail _ => true
  | effect _ _ | unmount => false
  end.

Definition truthyDimensions (d : option Dimensions) : bool :=
  match d with
  | Some d => truthy (dwidth d) && truthy (dheight d)
  | None => true
  end.

End ImageLoader.

(** *** The page component: stage, pointer and lens *)

Module Home.

Record State : Type := {
  image1 : option ImageHandle;
  imageDimensions : option Dimensions;
  stageDimensions : Dimensions;
  magnifierPosition : Position;
  showLens : bool;
  showRectangle : bool
}.

Definition initial : State :=
  {| image1 := None;
     imageDimensions := None;
     stageDimensions := {| dwidth := Fin 400; dheight := Fin 300 |};
     magnifierPosition := {| px := Fin 0; py := Fin 0 |};
     showLens := false;
     showRectangle := false |}.

Definition set_stageDimensions (v : Dimensions) (s : State) : State :=
  {| image1 := image1 s; imageDimensions := imageDimensions s;
     stageDimensions := v; magnifierPosition := magnifierPosition s;
     showLens := showLens s; showRectangle := showRectangle s |}.

Definition set_magnifierPosition (v : Position) (s : State) : State :=
  {| image1 := image1 s; imageDimensions := imageDimensions s;
     stageDimensions := stageDimensions s; magnifierPosition := v;
     showLens := showLens s; showRectangle := showRectangle s |}.

(** The effect that centres the magnifier: it sets the position to the
    middle of the stage when the image is there. *)
Definition centre_effect (s : State) : State :=
  match image1 s with
  | Some _ =>
      set_magnifierPosition
        {| px := (dwidth (stageDimensions s) / Fin 2)%js;
           py := (dheight (stageDimensions s) / Fin 2)%js |} s
  | None => s
  end.

(** [updateDimensions] as the component calls it, followed by the centring
    effect when the stage's width or height is a new value. *)
Definition resize (container : HTMLDivElement) (s : State) : State :=
  let before := stageDimensions s in
  let after := updateDimensions (Some container) (imageDimensions s) before in
  let s' := set_stageDimensions after s in
  if same_value (dwidth before) (dwidth after)
     && same_value (dheight before) (dheight after)
  then s'
  else centre_effect s'.

(** The first image finishes loading: the hook hands over the image and
    its dimensions, the centring effect runs, and the effect that installs
    the resize observer makes the first [updateDimensions] call. *)
Definition image_loaded (img : ImageHandle) (naturalWidth naturalHeight : number)
    (container : HTMLDivElement) (s : State) : State :=
  let s1 :=
    {| image1 := Some img;
       imageDimensions := Some {| dwidth := (naturalWidth || Fin 600)%js;
                                  dheight := (naturalHeight || Fin 400)%js |};
       stageDimensions := stageDimensions s;
       magnifierPosition := magnifierPosition s;
       showLens := showLens s;
       showRectangle := showRectangle s |} in
  resize container (centre_effect s1).

Definition handleMouseMove (pointerPosition : option Position) (s : State) : State :=
  if negb (showLens s) then s
  else match pointerPosition with
       | Some p => set_magnifierPosition p s
       | None => s
       end.

Definition handleTouchMove (touchPosition : option Position) (s : State) : State :=
  if negb (showLens s) then s
  else match touchPosition with
       | Some p => set_magnifierPosition p s
       | None => s
       end.

Definition handleClickOrTouch (pointerPosition : option Position) (s : State) : State :=
  match pointerPosition with
  | Some p =>
      {| image1 := image1 s; imageDimensions := imageDimensions s;
         stageDimensions := stageDimensions s;
         magnifierPosition := p;
         showLens := negb (showLens s);
         showRectangle := true |}
  | None => s
  end.

Inductive Event : Type :=
| loaded (img : ImageHandle) (naturalWidth naturalHeight : number)
         (container : HTMLDivElement)
| resized (container : HTMLDivElement)
| mouse_move (pointerPosition : option Position)
| touch_move (touchPosition : option Position)
| click (pointerPosition : option Position).

(** The resize observer exists only once the image is loaded. *)
Definition step (s : State) (e : Event) : State :=
  match e with
  | loaded img naturalWidth naturalHeight container =>
      image_loaded img naturalWidth naturalHeight container s
  | resized container =>
      match image1 s with
      | Some _ => resize container s
      | None => s
      end
  | mouse_move p => handleMouseMove p s
  | touch_move p => handleTouchMove p s
  | click p => handleClickOrTouch p s
  end.

Definition run (events : list Event) (s : State) : State :=
  fold_left step events s.

(** A finite number that is not negative, as the browser reports sizes. *)
Definition size_value (a : number) : Prop :=
  match a with Fin q => 0 <= q | _ => False end.

(** The pointer is on the stage, borders included. *)
Definition on_stage (p : Position) (stage : Dimensions) : Prop :=
  le_num (Fin 0) (px p) /\ le_num (px p) (dwidth stage)
  /\ le_num (Fin 0) (py p) /\ le_num (py p) (dheight stage).

Definition pointer_on_stage (p : option Position) (s : State) : Prop :=
  match p with
  | Some p => on_stage p (stageDimensions s)
  | None => True
  end.

(** What the browser can deliver in state [s]: sizes are finite and not
    negative, pointer positions are on the stage as it is displayed. *)
Definition deliverable (s : State) (e : Event) : Prop :=
  match e with
  | loaded _ naturalWidth naturalHeight container =>
      size_value naturalWidth /\ size_value naturalHeight
      /\ size_value (offsetWidth container)
  | resized container => size_value (offsetWidth container)
  | mouse_move p | touch_move p | click p => pointer_on_stage p s
  end.

Fixpoint deliverable_trace (s : State) (events : list Event) : Prop :=
  match events with
  | [] => True
  | e :: rest => deliverable s e /\ deliverable_trace (step s e) rest
  end.

End Home.

(** ** More of the AR page *)

(** *** The debug panel *)

Module DebugPanel.

Local Open Scope string_scope.

(** An argument of [logDebug], with the text it is shown as:
    [JSON.stringify(a, null, 2)] for an object, [String(a)] otherwise. *)
Inductive Arg : Type :=
| object (json : string)
| other (text : string).

Definition shown (a : Arg) : string :=
  match a with
  | object json => json
  | other text => text
  end.

(** [while (panel.childElementCount > 200) panel.removeChild(panel.firstChild)],
    with one unit of fuel for each iteration. *)
Fixpoint drop_oldest (fuel : nat) (lines : list string) : list string :=
  match fuel with
  | O => lines
  | S fuel' =>
      if Nat.ltb 200 (List.length lines)
      then drop_oldest fuel' (List.tl lines)
      else lines
  end.

(** The part of [logDebug] that writes to the panel: nothing without a
    panel, otherwise the new line is appended and the oldest lines are
    removed. *)
Definition logDebug (panel : option (list string)) (args : list Arg)
  : option (list string) :=
  match panel with
  | None => None
  | Some lines =>
      let text := String.concat " " (List.map shown args) in
      let lines' := (lines ++ [text])%list in
      Some (drop_oldest (List.length lines') lines')
  end.

End DebugPanel.

(** *** Worlds of the AR feature *)

(** The release calls a teardown makes in a world: one for each resource
    held, in the routine's order. *)
Definition releases (w : World) : list Call :=
  match xrSessionRef (refs w) with
  | Some s => [session_end s]
  | None => []
  end
  ++ match frameRef (refs w) with
     | Some id => [cancelAnimationFrame id]
     | None => []
     end
  ++ match canvasRef (refs w) with
     | Some c => if existsb (Nat.eqb c) (body (browser w)) then [removeChild c] else []
     | None => []
     end
  ++ match hitTestSourceRef (refs w) with
     | Source s => [hitTestSource_cancel s]
     | Undefined | Null => []
     end.

(** The worlds the component goes through: the first one, and those a
    launch or a turn of the event loop leads to. *)
Inductive reachable : World -> Prop :=
| reach_initial : reachable AR.initial
| reach_launch (isARSupported : bool) (platform : Platform) (size : Size)
    (w : World) :
    reachable w -> reachable (snd (launchAR isARSupported platform size w))
| reach_turn (w : World) (e : N * Event) :
    reachable w -> reachable (turn w e).

(** The session has announced its end: no timer is pending and no hit-test
    source is held. *)
Definition ended (w : World) : Prop :=
  fallbackId (closure w) = None
  /\ nullish (hitTestSourceRef (refs w)) = true.

(** *** Vocabulary of the further properties *)

(** The magnified image and the reference image have the finite, positive
    sizes [wi x hi] and [rw x rh]. *)
Definition image_sizes (dom : Document) (image : ImageHandle)
    (reference : option ImageHandle) (wi hi rw rh : Q) : Prop :=
  (width (dom image) = Fin wi /\ height (dom image) = Fin hi)
  /\ (width (referenceOf dom image reference) = Fin rw
      /\ height (referenceOf dom image reference) = Fin rh)
  /\ (0 < wi /\ 0 < hi) /\ (0 < rw /\ 0 < rh).

(** Stage size, output size and zoom are positive. *)
Definition positive_settings (sw sh mw mh z : Q) : Prop :=
  (0 < sw /\ 0 < sh) /\ (0 < mw /\ 0 < mh) /\ 0 < z.

(** The transform at finite inputs, all of them present. *)
Definition magnify (dom : Document) (image : ImageHandle)
    (reference : option ImageHandle) (mx my sw sh mw mh z : Q)
  : option MagnifyParams :=
  getMagnifyParams dom (Some image) reference
    {| px := Fin mx; py := Fin my |}
    (Some {| dwidth := Fin sw; dheight := Fin sh |})
    (Some {| dwidth := Fin mw; dheight := Fin mh |})
    (Some (Fin z)).

(** A completion that finds its handlers removed, or set for another
    image. *)
Definition stale (s : ImageLoader.State) (e : ImageLoader.Event) : bool :=
  match e with
  | ImageLoader.load img _ _ | ImageLoader.fail img =>
      negb (ImageLoader.handlers_set img s)
  | ImageLoader.effect _ _ | ImageLoader.unmount => false
  end.

(** The images whose handlers are set are at most the one the pending
    cleanup will detach. *)
Definition attached (s : ImageLoader.State) : Prop :=
  ImageLoader.listening s
  = match ImageLoader.to_clean s with
    | Some img => [img]
    | None => []
    end.

(** A completion of an image object other than [img]. *)
Definition completion_of_other (img : ImageHandle) (e : ImageLoader.Event) : bool :=
  match e with
  | ImageLoader.load other _ _ | ImageLoader.fail other => negb (Nat.eqb other img)
  | ImageLoader.effect _ _ | ImageLoader.unmount => false
  end.

(** What the page keeps true: the loaded image's dimensions are positive,
    the stage is positive, and the magnifier is on the stage. *)
Definition Home_invariant (s : Home.State) : Prop :=
  match Home.imageDimensions s with
  | Some d => positive (dwidth d) /\ positive (dheight d)
  | None => True
  end
  /\ (positive (dwidth (Home.stageDimensions s))
      /\ positive (dheight (Home.stageDimensions s)))
  /\ Home.on_stage (Home.magnifierPosition s) (Home.stageDimensions s).

(** The magnified view as the page renders it for the first image: the
    image is its own reference, the output is 400x400 and the zoom 0.5. *)
Definition Home_magnifiedView (dom : Document) (s : Home.State) (loading1 : bool)
  : MagnifiedViewOutput :=
  MagnifiedView dom (Home.image1 s) (Home.image1 s)
    (Home.magnifierPosition s) (Some (Home.stageDimensions s))
    (Some {| dwidth := Fin 400; dheight := Fin 400 |}) (Some (Fin 0.5))
    loading1.

(** * Properties *)

(** ** Arithmetic of JavaScript numbers *)

Section NumberFacts.

Lemma Qeq_bool_false (p q : Q) : ~ p == q -> Qeq_bool p q = false.
Proof.
  intros Hne. destruct (Qeq_bool p q) eqn:E; [|reflexivity].
  apply Qeq_bool_eq in E. contradiction.
Qed.

Lemma Qdiv_nonzero (p q : Q) : ~ p == 0 -> ~ q == 0 -> ~ p / q == 0.
Proof.
  intros Hp Hq H. apply Hp.
  rewrite <- (Qmult_div_r p q) by exact Hq. rewrite H. ring.
Qed.

Lemma truthy_fin (q : Q) : ~ q == 0 -> truthy (Fin q) = true.
Proof. intros H. simpl. now rewrite Qeq_bool_false. Qed.

Lemma or_else_fin (q : Q) (d : number) : ~ q == 0 -> (Fin q || d)%js = Fin q.
Proof. intros H. unfold or_else. now rewrite truthy_fin. Qed.

Lemma div_fin (p q : Q) : ~ q == 0 -> (Fin p / Fin q)%js = Fin (p / q).
Proof. intros H. simpl. now rewrite Qeq_bool_false. Qed.

Lemma positive_fin (a : number) :
  positive a -> exists q, a = Fin q /\ 0 < q.
Proof. destruct a; simpl; try contradiction. eauto. Qed.

Lemma clamp_bounds (c s rw : Q) :
  s <= rw ->
  0 <= Qmax 0 (Qmin (c - s / 2) (rw - s))
  /\ Qmax 0 (Qmin (c - s / 2) (rw - s)) + s <= rw.
Proof.
  intros Hs.
  destruct (Q.max_spec 0 (Qmin (c - s / 2) (rw - s))) as [[Hlt E]|[Hle E]];
    rewrite E;
    destruct (Q.min_spec (c - s / 2) (rw - s)) as [[Hlt' E']|[Hle' E']];
    rewrite ?E' in *; split; lra.
Qed.

End NumberFacts.

(** ** The magnifier transform *)

Ltac fin_positive H :=
  let q := fresh "q" in
  let E := fresh "E" in
  let P := fresh "P" in
  destruct (positive_fin _ H) as [q [E P]]; rewrite E in *; clear E.

Lemma Qdiv_pos (p q : Q) : 0 < p -> 0 < q -> 0 < p / q.
Proof.
  intros Hp Hq. apply Qlt_shift_div_l; [exact Hq | lra].
Qed.

(** C1, as stated: refuted.  A 600x400 image shown on the default
    400x300 stage with the default 400x400 output and zoom 0.5 is sampled
    over 800x800 pixels; with the pointer at (200,150) the rectangle
    starts at (0,0) and ends at (800,800), outside the image. *)
Lemma sampled_rect_overflows_small_reference :
  ~ sampled_rect_contained
      (fun _ => {| width := Fin 600; height := Fin 400 |}) 0%nat
      {| px := Fin 200; py := Fin 150 |} defaultStage defaultMag defaultZoom.
Proof.
  unfold sampled_rect_contained. intros H.
  assert (Hpos : forall q, 0 < q -> positive (Fin q)) by (intros q Hq; exact Hq).
  destruct H as [r [Hr [[_ Hx] _]]];
    try (apply Hpos; reflexivity).
  - simpl. repeat split; reflexivity.
  - vm_compute in Hr. injection Hr as <-.
    vm_compute in Hx. apply Hx. reflexivity.
Qed.

(** C1, amended: when the sampled region is no larger than the reference
    image ([magWidth / zoom <= referenceWidth] and likewise for the
    height), the sampled rectangle lies within
    [[0, referenceWidth] x [0, referenceHeight]]. *)
Theorem sampled_rect_contained_when_region_fits
    (dom : Document) (image : ImageHandle) (pos : Position)
    (stage mag : Dimensions) (zoom : number) :
  le_num (dwidth mag / zoom)%js (width (dom image)) ->
  le_num (dheight mag / zoom)%js (height (dom image)) ->
  sampled_rect_contained dom image pos stage mag zoom.
Proof.
  intros Hw Hh Hz Hsw Hsh Hmw Hmh Hin.
  destruct stage as [sw sh], mag as [mw mh], pos as [mx my].
  unfold inside_displayed in Hin. simpl in *.
  fin_positive Hz. fin_positive Hsw. fin_positive Hsh.
  fin_positive Hmw. fin_positive Hmh.
  destruct mx as [mx| | |]; try contradiction.
  destruct my as [my| | |]; try contradiction.
  rewrite !div_fin in Hw, Hh by lra.
  unfold getMagnifyParams, not_same. rewrite Nat.eqb_refl.
  cbn [negb option_map opt_or_else dwidth dheight px py].
  destruct (width (dom image)) as [rw| | |]; try contradiction.
  destruct (height (dom image)) as [rh| | |]; try contradiction.
  cbn [le_num] in Hw, Hh.
  assert (Hrw : 0 < rw) by (pose proof (Qdiv_pos q2 q P2 P); lra).
  assert (Hrh : 0 < rh) by (pose proof (Qdiv_pos q3 q P3 P); lra).
  rewrite !or_else_fin by lra.
  rewrite !(div_fin q0 rw), !(div_fin q1 rh) by lra.
  rewrite !div_fin by (try apply Qdiv_nonzero; lra).
  eexists; split; [reflexivity|].
  unfold rect_within.
  cbn [x y sourceWidth sourceHeight sub add neg max min le_num].
  pose proof (clamp_bounds (mx / (q0 / rw)) (q2 / q) rw Hw) as [Hx0 Hx1].
  pose proof (clamp_bounds (my / (q1 / rh)) (q3 / q) rh Hh) as [Hy0 Hy1].
  unfold Qminus in *. repeat split; assumption.
Qed.

Lemma sampled_rect_contained_when_region_fits_witness :
  exists r,
    getMagnifyParams large_doc (Some 0%nat) (Some 0%nat)
      {| px := Fin 200; py := Fin 150 |}
      (Some defaultStage) (Some defaultMag) (Some defaultZoom) = Some r
    /\ rect_within (Fin 3000) (Fin 2000) r.
Proof.
  apply (sampled_rect_contained_when_region_fits large_doc 0%nat
           {| px := Fin 200; py := Fin 150 |} defaultStage defaultMag defaultZoom);
    vm_compute; repeat split; solve [reflexivity | discriminate].
Defined.

Lemma eqv_refl (a : number) : (a =~ a)%js.
Proof. destruct a; simpl; auto. reflexivity. Qed.

Lemma eqv_sym (a b : number) : (a =~ b)%js -> (b =~ a)%js.
Proof. destruct a, b; simpl; auto. intros H. now symmetry. Qed.

Lemma eqv_trans (a b c : number) : (a =~ b)%js -> (b =~ c)%js -> (a =~ c)%js.
Proof.
  destruct a, b, c; simpl; auto; try contradiction.
  intros H1 H2. now rewrite H1.
Qed.

(** The centre of the stage maps to the centre of the reference image,
    whatever the stage's size. *)
Lemma center_half (s r : Q) :
  0 < s -> (Fin s / Fin 2 / (Fin s / Fin r) =~ Fin r / Fin 2)%js.
Proof.
  intros Hs. rewrite !(div_fin _ 2) by lra.
  destruct (Qeq_dec r 0) as [Hr|Hr].
  - simpl. rewrite (Qeq_eq_bool _ _ Hr), Qeq_bool_false by lra.
    unfold inf_signed.
    destruct (Qle_bool 0 s); simpl; rewrite Hr; reflexivity.
  - rewrite div_fin by exact Hr.
    rewrite div_fin by (apply Qdiv_nonzero; [lra | exact Hr]).
    simpl. field. split; [exact Hr | lra].
Qed.

(** C7: for a pointer at the exact centre of the displayed image
    ([stageWidth/2], [stageHeight/2]) with positive stage dimensions,
    [centerX] is [referenceWidth/2] and [centerY] is [referenceHeight/2]. *)
Theorem center_pointer_maps_to_reference_center
    (dom : Document) (image : ImageHandle) (reference : option ImageHandle)
    (mag : option Dimensions) (zoom : option number) (sw sh rw rh : Q) :
  0 < sw -> 0 < sh ->
  width (referenceOf dom image reference) = Fin rw ->
  height (referenceOf dom image reference) = Fin rh ->
  exists r,
    getMagnifyParams dom (Some image) reference
      {| px := (Fin sw / Fin 2)%js; py := (Fin sh / Fin 2)%js |}
      (Some {| dwidth := Fin sw; dheight := Fin sh |}) mag zoom = Some r
    /\ (centerX r =~ Fin rw / Fin 2)%js
    /\ (centerY r =~ Fin rh / Fin 2)%js.
Proof.
  intros Hsw Hsh Hrw Hrh.
  unfold getMagnifyParams.
  cbn [option_map opt_or_else dwidth dheight px py].
  rewrite !or_else_fin by lra.
  assert (Hw : match reference with
               | Some r => width (dom r)
               | None => width (dom image)
               end = Fin rw) by (destruct reference; exact Hrw).
  assert (Hh : match reference with
               | Some r => height (dom r)
               | None => height (dom image)
               end = Fin rh) by (destruct reference; exact Hrh).
  rewrite Hw, Hh.
  match goal with
  | |- context [if ?b then _ else _] => destruct b
  end; eexists; (split; [reflexivity|]);
    cbn [centerX centerY]; split; apply center_half; assumption.
Qed.

Lemma center_pointer_maps_to_reference_center_witness :
  exists r,
    getMagnifyParams large_doc (Some 0%nat) (Some 1%nat)
      {| px := (Fin 400 / Fin 2)%js; py := (Fin 300 / Fin 2)%js |}
      (Some {| dwidth := Fin 400; dheight := Fin 300 |}) None None = Some r
    /\ (centerX r =~ Fin 3000 / Fin 2)%js
    /\ (centerY r =~ Fin 2000 / Fin 2)%js.
Proof.
  apply (center_pointer_maps_to_reference_center large_doc 0%nat (Some 1%nat)
           None None 400 300 3000 2000); reflexivity.
Defined.

(** Rescaling an offset by [imageWidth / referenceWidth] and dividing by
    [imageWidth] gives the offset relative to the reference image. *)
Lemma rescaled_ratio (s : number) (wi rw : Q) :
  0 < wi -> 0 < rw ->
  ((s * (Fin wi / Fin rw)) / Fin wi =~ s / Fin rw)%js.
Proof.
  intros Hwi Hrw. rewrite (div_fin wi rw) by lra.
  pose proof (Qdiv_pos wi rw Hwi Hrw) as Hk.
  assert (Qle_bool 0 (wi / rw) = true) by (apply Qle_bool_iff; lra).
  assert (Qle_bool 0 wi = true) by (apply Qle_bool_iff; lra).
  assert (Qle_bool 0 rw = true) by (apply Qle_bool_iff; lra).
  destruct s as [q| | |]; cbn [mul]; unfold inf_signed;
    rewrite ?Qeq_bool_false by lra; rewrite ?H; cbn [neg].
  - rewrite !div_fin by lra. simpl. field. split; lra.
  - simpl. unfold inf_signed. rewrite H0, H1. exact I.
  - simpl. unfold inf_signed. rewrite H0, H1. exact I.
  - exact I.
Qed.

(** C6: two magnified images of any positive native sizes, with the same
    pointer, the same reference image and the same remaining inputs, are
    sampled at the same relative origin: [x/imageWidth] and
    [y/imageHeight] agree. *)
Theorem same_relative_region
    (dom : Document) (a b reference : ImageHandle) (pos : Position)
    (stage mag : option Dimensions) (zoom : option number) :
  positive (width (dom a)) -> positive (height (dom a)) ->
  positive (width (dom b)) -> positive (height (dom b)) ->
  positive (width (dom reference)) -> positive (height (dom reference)) ->
  exists ra rb,
    getMagnifyParams dom (Some a) (Some reference) pos stage mag zoom = Some ra
    /\ getMagnifyParams dom (Some b) (Some reference) pos stage mag zoom = Some rb
    /\ (x ra / width (dom a) =~ x rb / width (dom b))%js
    /\ (y ra / height (dom a) =~ y rb / height (dom b))%js.
Proof.
  intros Hwa Hha Hwb Hhb Hwr Hhr.
  unfold getMagnifyParams. cbv zeta.
  set (sx := max (Fin 0) (min (px pos / _ - _) _)%js).
  set (sy := max (Fin 0) (min (py pos / _ - _) _)%js).
  assert (Hone : forall i, positive (width (dom i)) -> positive (height (dom i)) ->
            not_same i reference = true ->
            ((sx * (width (dom i) / width (dom reference))) / width (dom i)
               =~ sx / width (dom reference))%js
            /\ ((sy * (height (dom i) / height (dom reference))) / height (dom i)
                  =~ sy / height (dom reference))%js).
  { intros i Hwi Hhi _.
    fin_positive Hwi. fin_positive Hhi. fin_positive Hwr. fin_positive Hhr.
    split; apply rescaled_ratio; assumption. }
  assert (Hsame : forall i, not_same i reference = false -> i = reference).
  { intros i Hi. unfold not_same in Hi.
    destruct (Nat.eqb_spec i reference); [assumption | discriminate]. }
  destruct (not_same a reference) eqn:Ea, (not_same b reference) eqn:Eb;
    do 2 eexists; (split; [reflexivity|]); (split; [reflexivity|]);
    cbn [x y];
    try (destruct (Hone a Hwa Hha Ea) as [Hax Hay]);
    try (destruct (Hone b Hwb Hhb Eb) as [Hbx Hby]);
    try (rewrite (Hsame a Ea)); try (rewrite (Hsame b Eb)); split;
    eauto using eqv_refl, eqv_sym, eqv_trans.
Qed.

Lemma same_relative_region_witness :
  exists ra rb,
    getMagnifyParams two_sizes_doc (Some 1%nat) (Some 0%nat)
      {| px := Fin 390; py := Fin 290 |} None None None = Some ra
    /\ getMagnifyParams two_sizes_doc (Some 2%nat) (Some 0%nat)
         {| px := Fin 390; py := Fin 290 |} None None None = Some rb
    /\ (x ra / Fin 1500 =~ x rb / Fin 6000)%js
    /\ (y ra / Fin 1000 =~ y rb / Fin 3000)%js.
Proof.
  apply (same_relative_region two_sizes_doc 1%nat 2%nat 0%nat
           {| px := Fin 390; py := Fin 290 |} None None None);
    vm_compute; reflexivity.
Defined.

(** The transform on finite inputs with non-zero stage, output and zoom
    values and positive image sizes, in closed form. *)
Lemma getMagnifyParams_closed_form
    (dom : Document) (image : ImageHandle) (reference : option ImageHandle)
    (mx my sw sh mw mh z wi hi rw rh : Q) :
  width (dom image) = Fin wi -> height (dom image) = Fin hi ->
  width (referenceOf dom image reference) = Fin rw ->
  height (referenceOf dom image reference) = Fin rh ->
  0 < wi -> 0 < hi -> 0 < rw -> 0 < rh ->
  ~ sw == 0 -> ~ sh == 0 -> ~ mw == 0 -> ~ mh == 0 -> ~ z == 0 ->
  let cx := mx / (sw / rw) in
  let cy := my / (sh / rh) in
  let sx := Qmax 0 (Qmin (cx - mw / z / 2) (rw - mw / z)) in
  let sy := Qmax 0 (Qmin (cy - mh / z / 2) (rh - mh / z)) in
  getMagnifyParams dom (Some image) reference {| px := Fin mx; py := Fin my |}
    (Some {| dwidth := Fin sw; dheight := Fin sh |})
    (Some {| dwidth := Fin mw; dheight := Fin mh |}) (Some (Fin z))
  = Some (if match reference with
             | Some r => not_same image r
             | None => false
             end
          then {| x := Fin (sx * (wi / rw)); y := Fin (sy * (hi / rh));
                  scaleX := Fin (z / (wi / rw)); scaleY := Fin (z / (hi / rh));
                  sourceWidth := Fin (mw / z); sourceHeight := Fin (mh / z);
                  centerX := Fin cx; centerY := Fin cy |}
          else {| x := Fin sx; y := Fin sy;
                  scaleX := Fin z; scaleY := Fin z;
                  sourceWidth := Fin (mw / z); sourceHeight := Fin (mh / z);
                  centerX := Fin cx; centerY := Fin cy |}).
Proof.
  intros Hwi Hhi Hrw Hrh Pwi Phi Prw Prh Nsw Nsh Nmw Nmh Nz cx cy sx sy.
  unfold getMagnifyParams.
  cbn [option_map opt_or_else dwidth dheight px py].
  assert (Hw : match reference with
               | Some r => width (dom r)
               | None => width (dom image)
               end = Fin rw) by (destruct reference; exact Hrw).
  assert (Hh : match reference with
               | Some r => height (dom r)
               | None => height (dom image)
               end = Fin rh) by (destruct reference; exact Hrh).
  rewrite Hw, Hh, Hwi, Hhi.
  rewrite !or_else_fin by assumption.
  rewrite (div_fin sw rw), (div_fin sh rh), (div_fin wi rw), (div_fin hi rh) by lra.
  rewrite !div_fin by (try apply Qdiv_nonzero; lra).
  match goal with
  | |- context [if ?b then _ else _] => destruct b
  end; reflexivity.
Qed.

Lemma or_else_zeroTo (d q : Q) : (Fin q || Fin d)%js = Fin (zeroTo d q).
Proof.
  unfold or_else, zeroTo. simpl. destruct (Qeq_bool q 0); reflexivity.
Qed.

Lemma zeroTo_nonzero (d q : Q) : ~ d == 0 -> ~ zeroTo d q == 0.
Proof.
  intros Hd. unfold zeroTo. destruct (Qeq_bool q 0) eqn:E; [exact Hd|].
  now apply Qeq_bool_neq.
Qed.

Lemma zeroTo_idem (d q : Q) : ~ d == 0 -> zeroTo d (zeroTo d q) = zeroTo d q.
Proof.
  intros Hd. unfold zeroTo at 1.
  now rewrite (Qeq_bool_false _ _ (zeroTo_nonzero d q Hd)).
Qed.

(** Zero-valued stage, output and zoom inputs are read as the defaults. *)
Lemma getMagnifyParams_zeroTo
    (dom : Document) (image reference : option ImageHandle) (pos : Position)
    (sw sh mw mh z : Q) :
  getMagnifyParams dom image reference pos
    (Some {| dwidth := Fin sw; dheight := Fin sh |})
    (Some {| dwidth := Fin mw; dheight := Fin mh |}) (Some (Fin z))
  = getMagnifyParams dom image reference pos
      (Some {| dwidth := Fin (zeroTo 400 sw); dheight := Fin (zeroTo 300 sh) |})
      (Some {| dwidth := Fin (zeroTo 400 mw); dheight := Fin (zeroTo 400 mh) |})
      (Some (Fin (zeroTo 0.5 z))).
Proof.
  unfold getMagnifyParams.
  cbn [option_map opt_or_else dwidth dheight].
  rewrite !or_else_zeroTo. rewrite !zeroTo_idem by (intro H; inversion H).
  reflexivity.
Qed.

(** The result is [null] exactly when the image handle is. *)
Lemma getMagnifyParams_null_iff
    (dom : Document) (image reference : option ImageHandle) (pos : Position)
    (stage mag : option Dimensions) (zoom : option number) :
  getMagnifyParams dom image reference pos stage mag zoom = None <-> image = None.
Proof.
  unfold getMagnifyParams. destruct image as [image|].
  - split; [|discriminate].
    match goal with
    | |- context [if ?b then _ else _] => destruct b
    end; discriminate.
  - split; reflexivity.
Qed.

(** Absent stage, output and zoom inputs are read as the defaults. *)
Lemma getMagnifyParams_orDefault
    (dom : Document) (image reference : option ImageHandle) (pos : Position)
    (stage mag : option Dimensions) (zoom : option number) :
  getMagnifyParams dom image reference pos stage mag zoom
  = getMagnifyParams dom image reference pos
      (Some (orDefault defaultStage stage)) (Some (orDefault defaultMag mag))
      (Some (orDefault defaultZoom zoom)).
Proof.
  destruct image as [image|]; [|reflexivity].
  destruct stage, mag, zoom; reflexivity.
Qed.

Lemma clamped_origin_range (c s r : Q) :
  0 < s -> 0 < r ->
  0 <= Qmax 0 (Qmin (c - s / 2) (r - s))
  /\ Qmax 0 (Qmin (c - s / 2) (r - s)) <= r.
Proof.
  intros Hs Hr.
  destruct (Q.max_spec 0 (Qmin (c - s / 2) (r - s))) as [[Hlt E]|[Hle E]];
    rewrite E;
    destruct (Q.min_spec (c - s / 2) (r - s)) as [[Hlt' E']|[Hle' E']];
    rewrite ?E' in *; split; lra.
Qed.

Lemma rescaled_origin_range (sx wi rw : Q) :
  0 < wi -> 0 < rw -> 0 <= sx -> sx <= rw ->
  0 <= sx * (wi / rw) /\ sx * (wi / rw) <= wi.
Proof.
  intros Hwi Hrw H0 H1.
  pose proof (Qdiv_pos wi rw Hwi Hrw) as Hk.
  split.
  - apply Qmult_le_0_compat; lra.
  - assert (E : wi == rw * (wi / rw)) by (field; lra).
    rewrite E at 2. apply Qmult_le_compat_r; lra.
Qed.

Lemma back_to_reference (sx k : Q) : 0 < k -> sx * k / k == sx.
Proof. intros Hk. field. lra. Qed.

Lemma same_pixels (sx w : Q) : 0 < w -> sx / (w / w) == sx.
Proof. intros Hw. field. lra. Qed.

Lemma unit_scale (sx w : Q) : 0 < w -> sx * (w / w) == sx.
Proof. intros Hw. field. lra. Qed.

(** C2, as stated: refuted.  With the stage, the output dimensions and
    the zoom all missing, a 600x400 image is sampled over the default
    400 / 0.5 = 800 pixels each way: for the pointer at (200,150) the
    result is the rectangle from (0,0) to (800,800), which does not lie
    within the image. *)
Lemma defaults_overflow_small_reference :
  ~ valid_clamped_result
      (fun _ => {| width := Fin 600; height := Fin 400 |}) 0%nat None
      {| px := Fin 200; py := Fin 150 |} None None None.
Proof.
  unfold valid_clamped_result. intros [r [Hr [[_ Hx] _]]].
  vm_compute in Hr. injection Hr as <-.
  vm_compute in Hx. apply Hx. reflexivity.
Qed.

(** What the transform returns when the magnified image is measured
    against another image object: every conjunct of the totality
    theorem, on the closed form. *)
Lemma rescaled_result_facts (mx my sw sh mw mh z wi hi rw rh : Q) :
  0 < sw -> 0 < sh -> 0 < mw -> 0 < mh -> 0 < z ->
  0 < wi -> 0 < hi -> 0 < rw -> 0 < rh ->
  let cx := mx / (sw / rw) in
  let cy := my / (sh / rh) in
  let sx := Qmax 0 (Qmin (cx - mw / z / 2) (rw - mw / z)) in
  let sy := Qmax 0 (Qmin (cy - mh / z / 2) (rh - mh / z)) in
  let r := {| x := Fin (sx * (wi / rw)); y := Fin (sy * (hi / rh));
              scaleX := Fin (z / (wi / rw)); scaleY := Fin (z / (hi / rh));
              sourceWidth := Fin (mw / z); sourceHeight := Fin (mh / z);
              centerX := Fin cx; centerY := Fin cy |} in
  finiteParams r = true
  /\ (centerX r = (Fin mx / (Fin sw / Fin rw))%js
      /\ centerY r = (Fin my / (Fin sh / Fin rh))%js)
  /\ (sourceWidth r = (Fin mw / Fin z)%js /\ sourceHeight r = (Fin mh / Fin z)%js)
  /\ ((x r =~ max (Fin 0) (min (centerX r - sourceWidth r / Fin 2)
                              (Fin rw - sourceWidth r))
                * (Fin wi / Fin rw))%js
      /\ (y r =~ max (Fin 0) (min (centerY r - sourceHeight r / Fin 2)
                                 (Fin rh - sourceHeight r))
                   * (Fin hi / Fin rh))%js)
  /\ (le_num (Fin 0) (x r) /\ le_num (x r) (Fin wi))
  /\ (le_num (Fin 0) (y r) /\ le_num (y r) (Fin hi))
  /\ (le_num (sourceWidth r) (Fin rw) -> le_num (sourceHeight r) (Fin rh) ->
      (le_num (Fin 0) (x r)
       /\ le_num (x r / (Fin wi / Fin rw) + sourceWidth r)%js (Fin rw))
      /\ (le_num (Fin 0) (y r)
          /\ le_num (y r / (Fin hi / Fin rh) + sourceHeight r)%js (Fin rh))).
Proof.
  intros Psw Psh Pmw Pmh Pz Pwi Phi Prw Prh cx cy sx sy r.
  pose proof (Qdiv_pos mw z Pmw Pz) as Prx.
  pose proof (Qdiv_pos mh z Pmh Pz) as Pry.
  pose proof (Qdiv_pos sw rw Psw Prw) as Pdx.
  pose proof (Qdiv_pos sh rh Psh Prh) as Pdy.
  pose proof (Qdiv_pos wi rw Pwi Prw) as Pkx.
  pose proof (Qdiv_pos hi rh Phi Prh) as Pky.
  pose proof (clamped_origin_range cx (mw / z) rw Prx Prw) as [X0 X1].
  pose proof (clamped_origin_range cy (mh / z) rh Pry Prh) as [Y0 Y1].
  fold sx in X0, X1. fold sy in Y0, Y1.
  pose proof (rescaled_origin_range sx wi rw Pwi Prw X0 X1) as [Rx0 Rx1].
  pose proof (rescaled_origin_range sy hi rh Phi Prh Y0 Y1) as [Ry0 Ry1].
  subst r. cbn [x y sourceWidth sourceHeight centerX centerY].
  rewrite (div_fin sw rw), (div_fin sh rh), (div_fin wi rw), (div_fin hi rh) by lra.
  rewrite !div_fin by lra.
  split; [reflexivity|].
  split; [split; reflexivity|].
  split; [split; reflexivity|].
  cbn [sub add neg max min mul eqv le_num].
  split; [split; reflexivity|].
  split; [split; assumption|].
  split; [split; assumption|].
  intros Hfw Hfh.
  pose proof (clamp_bounds cx (mw / z) rw Hfw) as [_ Cx].
  pose proof (clamp_bounds cy (mh / z) rh Hfh) as [_ Cy].
  fold sx in Cx. fold sy in Cy.
  repeat split; try assumption.
  - rewrite back_to_reference by assumption. exact Cx.
  - rewrite back_to_reference by assumption. exact Cy.
Qed.

(** The same when the magnified image is the reference itself. *)
Lemma unscaled_result_facts (mx my sw sh mw mh z rw rh : Q) :
  0 < sw -> 0 < sh -> 0 < mw -> 0 < mh -> 0 < z -> 0 < rw -> 0 < rh ->
  let cx := mx / (sw / rw) in
  let cy := my / (sh / rh) in
  let sx := Qmax 0 (Qmin (cx - mw / z / 2) (rw - mw / z)) in
  let sy := Qmax 0 (Qmin (cy - mh / z / 2) (rh - mh / z)) in
  let r := {| x := Fin sx; y := Fin sy;
              scaleX := Fin z; scaleY := Fin z;
              sourceWidth := Fin (mw / z); sourceHeight := Fin (mh / z);
              centerX := Fin cx; centerY := Fin cy |} in
  finiteParams r = true
  /\ (centerX r = (Fin mx / (Fin sw / Fin rw))%js
      /\ centerY r = (Fin my / (Fin sh / Fin rh))%js)
  /\ (sourceWidth r = (Fin mw / Fin z)%js /\ sourceHeight r = (Fin mh / Fin z)%js)
  /\ ((x r =~ max (Fin 0) (min (centerX r - sourceWidth r / Fin 2)
                              (Fin rw - sourceWidth r))
                * (Fin rw / Fin rw))%js
      /\ (y r =~ max (Fin 0) (min (centerY r - sourceHeight r / Fin 2)
                                 (Fin rh - sourceHeight r))
                   * (Fin rh / Fin rh))%js)
  /\ (le_num (Fin 0) (x r) /\ le_num (x r) (Fin rw))
  /\ (le_num (Fin 0) (y r) /\ le_num (y r) (Fin rh))
  /\ (le_num (sourceWidth r) (Fin rw) -> le_num (sourceHeight r) (Fin rh) ->
      (le_num (Fin 0) (x r)
       /\ le_num (x r / (Fin rw / Fin rw) + sourceWidth r)%js (Fin rw))
      /\ (le_num (Fin 0) (y r)
          /\ le_num (y r / (Fin rh / Fin rh) + sourceHeight r)%js (Fin rh))).
Proof.
  intros Psw Psh Pmw Pmh Pz Prw Prh cx cy sx sy r.
  pose proof (Qdiv_pos rw rw Prw Prw) as Pkx.
  pose proof (Qdiv_pos rh rh Prh Prh) as Pky.
  pose proof (Qdiv_pos mw z Pmw Pz) as Prx.
  pose proof (Qdiv_pos mh z Pmh Pz) as Pry.
  pose proof (Qdiv_pos sw rw Psw Prw) as Pdx.
  pose proof (Qdiv_pos sh rh Psh Prh) as Pdy.
  pose proof (clamped_origin_range cx (mw / z) rw Prx Prw) as [X0 X1].
  pose proof (clamped_origin_range cy (mh / z) rh Pry Prh) as [Y0 Y1].
  fold sx in X0, X1. fold sy in Y0, Y1.
  subst r. cbn [x y sourceWidth sourceHeight centerX centerY].
  rewrite (div_fin sw rw), (div_fin sh rh), (div_fin rw rw), (div_fin rh rh) by lra.
  rewrite !div_fin by lra.
  split; [reflexivity|].
  split; [split; reflexivity|].
  split; [split; reflexivity|].
  cbn [sub add neg max min mul eqv le_num].
  split; [split; symmetry; apply unit_scale; assumption|].
  split; [split; assumption|].
  split; [split; assumption|].
  intros Hfw Hfh.
  pose proof (clamp_bounds cx (mw / z) rw Hfw) as [_ Cx].
  pose proof (clamp_bounds cy (mh / z) rh Hfh) as [_ Cy].
  fold sx in Cx. fold sy in Cy.
  repeat split; try assumption.
  - rewrite same_pixels by assumption. exact Cx.
  - rewrite same_pixels by assumption. exact Cy.
Qed.

(** C2, amended: the transform is total over present and absent optional
    inputs.  Without an image handle the result is [null]; with one, for
    every finite pointer position, the result exists and is the one
    computed with the defaults 400x300, 400x400 and 0.5 in place of
    whichever of [stageDimensions], [magDimensions] and [zoomScale] is
    missing: its centre is the pointer scaled by (defaulted) stage over
    reference, its sampled region is the (defaulted) output size over the
    (defaulted) zoom, its origin is the clamped
    [max(0, min(center - region/2, reference - region))] scaled by image
    over reference and lies within the magnified image, and every field
    is finite.  The sampled
    rectangle lies within the reference image when the sampled region is
    no larger than the reference image. *)
Theorem getMagnifyParams_total_with_defaults
    (dom : Document) (image : ImageHandle) (reference : option ImageHandle)
    (mx my : Q) (stage mag : option Dimensions) (zoom : option number) :
  positive (width (dom image)) -> positive (height (dom image)) ->
  positive (width (referenceOf dom image reference)) ->
  positive (height (referenceOf dom image reference)) ->
  optPositiveDims stage -> optPositiveDims mag -> optPositive zoom ->
  let pos := {| px := Fin mx; py := Fin my |} in
  let safeStage := orDefault defaultStage stage in
  let safeMag := orDefault defaultMag mag in
  let safeZoom := orDefault defaultZoom zoom in
  let ref := referenceOf dom image reference in
  getMagnifyParams dom None reference pos stage mag zoom = None
  /\ exists r,
       getMagnifyParams dom (Some image) reference pos stage mag zoom = Some r
       /\ getMagnifyParams dom (Some image) reference pos
            (Some safeStage) (Some safeMag) (Some safeZoom) = Some r
       /\ finiteParams r = true
       /\ (centerX r = (Fin mx / (dwidth safeStage / width ref))%js
           /\ centerY r = (Fin my / (dheight safeStage / height ref))%js)
       /\ (sourceWidth r = (dwidth safeMag / safeZoom)%js
           /\ sourceHeight r = (dheight safeMag / safeZoom)%js)
       /\ ((x r =~ max (Fin 0) (min (centerX r - sourceWidth r / Fin 2)
                                   (width ref - sourceWidth r))
                     * (width (dom image) / width ref))%js
           /\ (y r =~ max (Fin 0) (min (centerY r - sourceHeight r / Fin 2)
                                      (height ref - sourceHeight r))
                        * (height (dom image) / height ref))%js)
       /\ (le_num (Fin 0) (x r) /\ le_num (x r) (width (dom image)))
       /\ (le_num (Fin 0) (y r) /\ le_num (y r) (height (dom image)))
       /\ (le_num (sourceWidth r) (width ref) ->
           le_num (sourceHeight r) (height ref) ->
           rect_within_reference dom image reference r).
Proof.
  intros Hwi Hhi Hrw Hrh Hstage Hmag Hzoom pos safeStage safeMag safeZoom ref.
  split; [reflexivity|].
  rewrite (getMagnifyParams_orDefault dom (Some image)).
  fold safeStage safeMag safeZoom.
  assert (Hs : positive (dwidth safeStage) /\ positive (dheight safeStage)).
  { unfold safeStage. destruct stage; [exact Hstage | split; reflexivity]. }
  assert (Hm : positive (dwidth safeMag) /\ positive (dheight safeMag)).
  { unfold safeMag. destruct mag; [exact Hmag | split; reflexivity]. }
  assert (Hz : positive safeZoom).
  { unfold safeZoom. destruct zoom; [exact Hzoom | reflexivity]. }
  clearbody safeStage safeMag safeZoom.
  destruct safeStage as [sw sh], safeMag as [mw mh].
  destruct Hs as [Hsw Hsh], Hm as [Hmw Hmh]. cbn [dwidth dheight] in *.
  unfold rect_within_reference. fold ref.
  destruct (positive_fin _ Hwi) as [wi [Ewi Pwi]].
  destruct (positive_fin _ Hhi) as [hi [Ehi Phi]].
  destruct (positive_fin _ Hrw) as [rw [Erw Prw]].
  destruct (positive_fin _ Hrh) as [rh [Erh Prh]].
  fin_positive Hsw. fin_positive Hsh. fin_positive Hmw. fin_positive Hmh.
  fin_positive Hz.
  unfold pos.
  rewrite (getMagnifyParams_closed_form dom image reference mx my
             q q0 q1 q2 q3 wi hi rw rh) by (assumption || lra).
  fold ref in Erw, Erh. rewrite Ewi, Ehi, Erw, Erh.
  assert (Hwhole : forall a b : Q, Fin a = Fin b -> a = b)
    by (intros a b H; injection H; auto).
  eexists. split; [reflexivity|]. split; [reflexivity|].
  subst ref.
  destruct reference as [r0|]; cbn [referenceOf] in Erw, Erh.
  - unfold not_same. destruct (Nat.eqb_spec image r0) as [<-|Hne]; cbn [negb].
    + rewrite Ewi in Erw. rewrite Ehi in Erh.
      apply Hwhole in Erw, Erh. subst wi hi.
      apply unscaled_result_facts; assumption.
    + apply rescaled_result_facts; assumption.
  - rewrite Ewi in Erw. rewrite Ehi in Erh.
    apply Hwhole in Erw, Erh. subst wi hi.
    apply unscaled_result_facts; assumption.
Qed.

Lemma getMagnifyParams_total_with_defaults_witness :
  let pos := {| px := Fin 10; py := Fin 20 |} in
  let ref := two_sizes_doc 0%nat in
  getMagnifyParams two_sizes_doc None (Some 0%nat) pos None None None = None
  /\ exists r,
       getMagnifyParams two_sizes_doc (Some 1%nat) (Some 0%nat) pos None None None
         = Some r
       /\ getMagnifyParams two_sizes_doc (Some 1%nat) (Some 0%nat) pos
            (Some defaultStage) (Some defaultMag) (Some defaultZoom) = Some r
       /\ finiteParams r = true
       /\ (centerX r = (Fin 10 / (Fin 400 / width ref))%js
           /\ centerY r = (Fin 20 / (Fin 300 / height ref))%js)
       /\ (sourceWidth r = (Fin 400 / Fin 0.5)%js
           /\ sourceHeight r = (Fin 400 / Fin 0.5)%js)
       /\ ((x r =~ max (Fin 0) (min (centerX r - sourceWidth r / Fin 2)
                                   (width ref - sourceWidth r))
                     * (width (two_sizes_doc 1%nat) / width ref))%js
           /\ (y r =~ max (Fin 0) (min (centerY r - sourceHeight r / Fin 2)
                                      (height ref - sourceHeight r))
                        * (height (two_sizes_doc 1%nat) / height ref))%js)
       /\ (le_num (Fin 0) (x r) /\ le_num (x r) (width (two_sizes_doc 1%nat)))
       /\ (le_num (Fin 0) (y r) /\ le_num (y r) (height (two_sizes_doc 1%nat)))
       /\ (le_num (sourceWidth r) (width ref) ->
           le_num (sourceHeight r) (height ref) ->
           rect_within_reference two_sizes_doc 1%nat (Some 0%nat) r).
Proof.
  apply (getMagnifyParams_total_with_defaults two_sizes_doc 1%nat (Some 0%nat)
           10 20 None None None); vm_compute; solve [reflexivity | exact I].
Defined.

(** C10: zero-valued (not merely absent) zoom, stage or output dimensions
    are replaced by the defaults 0.5, 400x300 and 400x400 before anything
    is computed; with positive image and reference sizes and a finite
    pointer, every divisor is then finite and non-zero and the result is
    finite. *)
Theorem zero_inputs_take_defaults
    (dom : Document) (image : ImageHandle) (reference : option ImageHandle)
    (mx my sw sh mw mh z : Q) :
  positive (width (dom image)) -> positive (height (dom image)) ->
  positive (width (referenceOf dom image reference)) ->
  positive (height (referenceOf dom image reference)) ->
  let pos := {| px := Fin mx; py := Fin my |} in
  let stage := {| dwidth := Fin sw; dheight := Fin sh |} in
  let mag := {| dwidth := Fin mw; dheight := Fin mh |} in
  exists r,
    getMagnifyParams dom (Some image) reference pos
      (Some stage) (Some mag) (Some (Fin z)) = Some r
    /\ getMagnifyParams dom (Some image) reference pos
         (Some {| dwidth := Fin (zeroTo 400 sw); dheight := Fin (zeroTo 300 sh) |})
         (Some {| dwidth := Fin (zeroTo 400 mw); dheight := Fin (zeroTo 400 mh) |})
         (Some (Fin (zeroTo 0.5 z))) = Some r
    /\ finiteParams r = true
    /\ Forall nonzero
         (getMagnifyParams_divisors dom (Some image) reference pos
            (Some stage) (Some mag) (Some (Fin z))).
Proof.
  intros Hwi Hhi Hrw Hrh pos stage mag.
  destruct (positive_fin _ Hwi) as [wi [Ewi Pwi]].
  destruct (positive_fin _ Hhi) as [hi [Ehi Phi]].
  destruct (positive_fin _ Hrw) as [rw [Erw Prw]].
  destruct (positive_fin _ Hrh) as [rh [Erh Prh]].
  assert (N400 : ~ 400 == 0) by (intro H; inversion H).
  assert (N300 : ~ 300 == 0) by (intro H; inversion H).
  assert (N05 : ~ 0.5 == 0) by (intro H; inversion H).
  pose proof (zeroTo_nonzero 400 sw N400) as Nsw.
  pose proof (zeroTo_nonzero 300 sh N300) as Nsh.
  pose proof (zeroTo_nonzero 400 mw N400) as Nmw.
  pose proof (zeroTo_nonzero 400 mh N400) as Nmh.
  pose proof (zeroTo_nonzero 0.5 z N05) as Nz.
  unfold pos, stage, mag. rewrite getMagnifyParams_zeroTo.
  rewrite (getMagnifyParams_closed_form dom image reference mx my
             _ _ _ _ _ wi hi rw rh) by (assumption || lra).
  eexists. split; [reflexivity|]. split; [reflexivity|]. split.
  - match goal with
    | |- context [if ?b then _ else _] => destruct b
    end; reflexivity.
  - unfold getMagnifyParams_divisors.
    cbn [option_map opt_or_else dwidth dheight].
    assert (Hw : match reference with
                 | Some r => width (dom r)
                 | None => width (dom image)
                 end = Fin rw) by (destruct reference; exact Erw).
    assert (Hh : match reference with
                 | Some r => height (dom r)
                 | None => height (dom image)
                 end = Fin rh) by (destruct reference; exact Erh).
    rewrite Hw, Hh, Ewi, Ehi, !or_else_zeroTo.
    rewrite !div_fin by lra.
    assert (N2 : ~ 2 == 0) by (intro H; inversion H).
    match goal with
    | |- context [if ?b then _ else _] => destruct b
    end; repeat constructor; cbn [nonzero];
      try assumption; try (apply Qdiv_nonzero; assumption || lra); lra.
Qed.

Lemma zero_inputs_take_defaults_witness :
  exists r,
    getMagnifyParams two_sizes_doc (Some 1%nat) (Some 0%nat)
      {| px := Fin 10; py := Fin 20 |}
      (Some {| dwidth := Fin 0; dheight := Fin 0 |})
      (Some {| dwidth := Fin 0; dheight := Fin 0 |}) (Some (Fin 0)) = Some r
    /\ getMagnifyParams two_sizes_doc (Some 1%nat) (Some 0%nat)
         {| px := Fin 10; py := Fin 20 |}
         (Some {| dwidth := Fin (zeroTo 400 0); dheight := Fin (zeroTo 300 0) |})
         (Some {| dwidth := Fin (zeroTo 400 0); dheight := Fin (zeroTo 400 0) |})
         (Some (Fin (zeroTo 0.5 0))) = Some r
    /\ finiteParams r = true
    /\ Forall nonzero
         (getMagnifyParams_divisors two_sizes_doc (Some 1%nat) (Some 0%nat)
            {| px := Fin 10; py := Fin 20 |}
            (Some {| dwidth := Fin 0; dheight := Fin 0 |})
            (Some {| dwidth := Fin 0; dheight := Fin 0 |}) (Some (Fin 0))).
Proof.
  apply (zero_inputs_take_defaults two_sizes_doc 1%nat (Some 0%nat)
           10 20 0 0 0 0 0); vm_compute; reflexivity.
Defined.

(** ** The resize recomputation *)

(** C8, as stated: refuted.  A 600x401 image in a 400 pixel wide container
    gets the stage 400x267, and 267/400 is not 401/600. *)
Lemma resize_rounds_the_height :
  ~ aspect_preserved {| offsetWidth := Fin 400 |}
      {| dwidth := Fin 600; dheight := Fin 401 |} defaultStage.
Proof.
  unfold aspect_preserved. intros H.
  destruct H as [_ H]; try reflexivity.
  vm_compute in H. discriminate H.
Qed.

(** C8, amended: for a positive container width and positive image
    dimensions the stage takes the container's width, and its height is
    the aspect-preserving height [containerWidth * imageHeight / imageWidth]
    rounded down to a whole number; when that rounds down to 0 the height
    is 300. *)
Theorem updateDimensions_floors_the_aspect_height
    (cw iw ih : Q) (old : Dimensions) :
  0 < cw -> 0 < iw -> 0 < ih ->
  exists hgt : Z,
    updateDimensions (Some {| offsetWidth := Fin cw |})
      (Some {| dwidth := Fin iw; dheight := Fin ih |}) old
    = {| dwidth := Fin cw; dheight := Fin (inject_Z hgt) |}
    /\ (iw <= cw * ih ->
        inject_Z hgt <= cw * ih / iw /\ cw * ih / iw < inject_Z hgt + 1)
    /\ (cw * ih < iw -> hgt = 300%Z).
Proof.
  intros Hcw Hiw Hih.
  unfold updateDimensions. cbn [offsetWidth dwidth dheight].
  rewrite !or_else_fin by lra.
  cbn [mul]. rewrite div_fin by lra. cbn [floor].
  set (q := cw * ih / iw).
  assert (Hq : 0 < q) by (apply Qdiv_pos; [apply Qmult_lt_0_compat|]; assumption).
  pose proof (Qfloor_le q) as Hlo.
  pose proof (Qlt_floor q) as Hhi.
  rewrite inject_Z_plus in Hhi.
  destruct (Qlt_le_dec q 1) as [Hsmall|Hbig].
  - assert (E : Qfloor q = 0%Z).
    { assert (0 <= Qfloor q)%Z.
      { rewrite <- (Qfloor_Z 0). apply Qfloor_resp_le. unfold inject_Z. lra. }
      assert (Qfloor q < 1)%Z.
      { rewrite Zlt_Qlt. unfold inject_Z at 2. lra. }
      lia. }
    rewrite E. exists 300%Z. split; [reflexivity|]. split.
    + intros Hge. exfalso.
      assert (1 <= q) by (unfold q; apply Qle_shift_div_l; lra).
      lra.
    + reflexivity.
  - assert (E : (1 <= Qfloor q)%Z).
    { rewrite <- (Qfloor_Z 1). apply Qfloor_resp_le. exact Hbig. }
    assert (Hnz : ~ inject_Z (Qfloor q) == 0).
    { intros H0. rewrite Zle_Qle in E. unfold inject_Z at 1 in E. lra. }
    rewrite or_else_fin by exact Hnz.
    exists (Qfloor q). split; [reflexivity|]. split.
    + intros _. split; [exact Hlo | exact Hhi].
    + intros Hlt. exfalso.
      assert (q < 1) by (unfold q; apply Qlt_shift_div_r; lra).
      lra.
Qed.

Lemma updateDimensions_floors_the_aspect_height_witness :
  exists hgt : Z,
    updateDimensions (Some {| offsetWidth := Fin 400 |})
      (Some {| dwidth := Fin 600; dheight := Fin 401 |}) defaultStage
    = {| dwidth := Fin 400; dheight := Fin (inject_Z hgt) |}
    /\ (600 <= 400 * 401 ->
        inject_Z hgt <= 400 * 401 / 600 /\ 400 * 401 / 600 < inject_Z hgt + 1)
    /\ (400 * 401 < 600 -> hgt = 300%Z).
Proof.
  apply (updateDimensions_floors_the_aspect_height 400 600 401 defaultStage);
    reflexivity.
Defined.

(** ** The AR session: teardown *)

Ltac run_monad :=
  unfold endARSession, body_removeChild, logDebug, call, deref, when, read,
    update, bind, ret, throw, parentElement, isSome in *;
  cbn [fst snd refs closure browser arSessionActive xrSessionRef frameRef
       canvasRef hitTestSourceRef body console now listeners calls
       with_refs with_closure with_browser set_xrSessionRef set_frameRef
       set_canvasRef set_hitTestSourceRef set_body set_console set_calls
       overlays set_overlays
       set_arSessionActive] in *.

Lemma existsb_eqb_In (c : nat) (l : list nat) :
  existsb (Nat.eqb c) l = true <-> In c l.
Proof.
  rewrite existsb_exists. split.
  - intros [y [Hin Heq]]. apply Nat.eqb_eq in Heq. now subst.
  - intros Hin. exists c. split; [exact Hin | apply Nat.eqb_refl].
Qed.

Ltac teardown_cases s f c ht b E :=
  destruct s, f, c as [c|], ht;
  try destruct (existsb (Nat.eqb c) b) eqn:E;
  run_monad; rewrite ?E; run_monad; rewrite ?E; run_monad.

(** Teardown returns normally from every world. *)
Lemma endARSession_returns (w : World) : fst (endARSession w) = Returned tt.
Proof.
  destruct w as [[s f c ht] a cl [b con n l cs ov]].
  teardown_cases s f c ht b E; reflexivity.
Qed.

(** After teardown the session, frame and hit-test refs hold nothing, the
    active flag is down and the closure is untouched; the canvas ref is
    cleared when its canvas was in the document. *)
Lemma endARSession_effect (w : World) :
  let w' := snd (endARSession w) in
  xrSessionRef (refs w') = None
  /\ frameRef (refs w') = None
  /\ nullish (hitTestSourceRef (refs w')) = true
  /\ arSessionActive w' = false
  /\ closure w' = closure w
  /\ placements w' = placements w
  /\ (canvas_in_document w -> canvasRef (refs w') = None).
Proof.
  destruct w as [[s f c ht] a cl [b con n l cs ov]].
  unfold canvas_in_document, placements.
  teardown_cases s f c ht b E;
    rewrite ?count_occ_app; cbn [count_occ];
    repeat split; try reflexivity; try discriminate;
    try (intros Hin; specialize (Hin c eq_refl);
         apply existsb_eqb_In in Hin; congruence).
  all: try (destruct (string_dec _ _) as [D|_]; [discriminate D|]).
  all: try (destruct (string_dec _ _) as [D|_]; [discriminate D|]).
  all: try lia.
Qed.

(** A second teardown changes nothing. *)
Lemma endARSession_again (w : World) :
  endARSession (snd (endARSession w)) = (Returned tt, snd (endARSession w)).
Proof.
  destruct w as [[s f c ht] a cl [b con n l cs ov]].
  teardown_cases s f c ht b E; try reflexivity.
Qed.

Lemma run_result {A : Type} (c : M A) (w : World) (a : A) :
  fst (c w) = Returned a -> c w = (Returned a, snd (c w)).
Proof. destruct (c w) as [o w']. simpl. now intros ->. Qed.

(** C3: teardown is idempotent and safe on partial initialisation.  From
    any world of the component (whichever of the session, the frame id,
    the canvas and the hit-test source it holds), [endARSession] returns
    without throwing and leaves no handle in the four refs; invoked again
    it returns without throwing and changes nothing. *)
Theorem endARSession_idempotent (w : World) :
  canvas_in_document w ->
  exists w1,
    endARSession w = (Returned tt, w1)
    /\ handles_released w1
    /\ endARSession w1 = (Returned tt, w1).
Proof.
  intros Hdoc. exists (snd (endARSession w)).
  split; [apply run_result, endARSession_returns|].
  split; [|apply endARSession_again].
  pose proof (endARSession_effect w) as (Hs & Hf & Hh & _ & _ & _ & Hc).
  unfold handles_released. auto.
Qed.

Lemma endARSession_idempotent_witness :
  exists w1,
    endARSession partly_set_up = (Returned tt, w1)
    /\ handles_released w1
    /\ endARSession w1 = (Returned tt, w1).
Proof.
  apply (endARSession_idempotent partly_set_up).
  intros c Hc. vm_compute in Hc. injection Hc as <-.
  vm_compute. left. reflexivity.
Defined.

(** ** The AR session: launch *)

Ltac run_launch :=
  unfold launchAR_try, body_appendChild, body_appendChild_overlay, await, await_value, logDebug, call,
    deref, when, read, update, bind, ret, throw, isSome in *;
  cbn [fst snd refs closure browser arSessionActive xrSessionRef frameRef
       canvasRef hitTestSourceRef body console now listeners calls
       with_refs with_closure with_browser set_xrSessionRef set_frameRef
       set_canvasRef set_hitTestSourceRef set_body set_console set_calls
       overlays set_overlays
       set_arSessionActive set_listeners set_now
       placed pictureGroup camera_position diag_innerText h fallbackId
       set_placed set_pictureGroup set_camera_position set_diag_innerText
       set_h set_fallbackId
       getUserMedia requestSession createElement_canvas getContext
       makeXRCompatible new_XRWebGLLayer updateRenderState new_WebGLRenderer
       requestReferenceSpace_local requestReferenceSpace_viewer
       requestHitTestSource andb] in *.

(** The set-up throws exactly when one of its steps fails, and the world
    it throws in keeps the held canvas in the document. *)
Lemma launchAR_try_outcome (platform : Platform) (size : Size) (w : World) :
  if all_steps_succeed platform
  then fst (launchAR_try platform size w) = Returned tt
       /\ ready (snd (launchAR_try platform size w))
       /\ canvas_in_document (snd (launchAR_try platform size w))
  else (exists e, fst (launchAR_try platform size w) = Thrown e)
       /\ (canvas_in_document w ->
           canvas_in_document (snd (launchAR_try platform size w))).
Proof.
  destruct platform as [gum rs cv gc mx nl urs nr l v hts].
  destruct w as [[s f c ht] a cl [b con n ls cs ov]].
  unfold all_steps_succeed, canvas_in_document, ready, registered.
  destruct gum; [|run_launch; split; [eexists; reflexivity | auto]].
  destruct rs as [session|]; [|run_launch; split; [eexists; reflexivity | auto]].
  assert (Hcv : In cv (remove Nat.eq_dec cv b ++ [cv]))
    by (apply in_or_app; right; left; reflexivity).
  destruct gc as [[]|];
    [|run_launch; split;
      [eexists; reflexivity | intros _ c' Hc'; injection Hc' as <-; exact Hcv]].
  destruct mx;
    [|run_launch; split;
      [eexists; reflexivity | intros _ c' Hc'; injection Hc' as <-; exact Hcv]].
  destruct nl;
    [|run_launch; split;
      [eexists; reflexivity | intros _ c' Hc'; injection Hc' as <-; exact Hcv]].
  destruct urs;
    [|run_launch; split;
      [eexists; reflexivity | intros _ c' Hc'; injection Hc' as <-; exact Hcv]].
  destruct nr;
    [|run_launch; split;
      [eexists; reflexivity | intros _ c' Hc'; injection Hc' as <-; exact Hcv]].
  destruct l;
    [|run_launch; split;
      [eexists; reflexivity | intros _ c' Hc'; injection Hc' as <-; exact Hcv]].
  destruct v;
    [|run_launch; split;
      [eexists; reflexivity | intros _ c' Hc'; injection Hc' as <-; exact Hcv]].
  destruct hts as [source|];
    [|run_launch; split;
      [eexists; reflexivity | intros _ c' Hc'; injection Hc' as <-; exact Hcv]].
  run_launch. repeat split; try reflexivity.
  intros c' Hc'. injection Hc' as <-. exact Hcv.
Qed.

Lemma logDebug_run (msg : string) (w : World) :
  logDebug msg w
  = (Returned tt, with_browser (fun b => set_console (console b ++ [msg]) b) w).
Proof. reflexivity. Qed.

Lemma canvas_in_document_logged (msg : string) (w : World) :
  canvas_in_document w -> canvas_in_document (snd (logDebug msg w)).
Proof. intros H c Hc. apply (H c Hc). Qed.



(** ** The AR session: placement *)

Ltac run_handlers :=
  unfold turn, fire_timers, dispatch, registered, onSelect, onFallback,
    onXRFrame, onEnd, closeImageModal, logDebug, call, deref, when, read,
    update, bind, ret, throw in *;
  cbn [fst snd refs closure browser arSessionActive xrSessionRef frameRef
       canvasRef hitTestSourceRef body console now listeners calls
       with_refs with_closure with_browser set_xrSessionRef set_frameRef
       set_canvasRef set_hitTestSourceRef set_body set_console set_calls
       overlays set_overlays
       set_arSessionActive set_listeners set_now
       placed pictureGroup camera_position diag_innerText h fallbackId
       set_placed set_pictureGroup set_camera_position set_diag_innerText
       set_h set_fallbackId negb andb Datatypes.length Nat.eqb] in *.

Ltac count_lines :=
  unfold placements;
  cbn [browser console with_refs with_closure with_browser set_console
       set_calls set_body set_now set_listeners set_arSessionActive];
  rewrite ?count_occ_app; cbn [count_occ];
  repeat match goal with
         | |- context [string_dec ?a ?b] =>
             let D := fresh "D" in
             destruct (string_dec a b) as [D|D];
             [try discriminate D | try (exfalso; apply D; reflexivity); clear D]
         end;
  try lia.

(** What teardown leaves of the closure and of the placement count, in the
    shape the handlers use it. *)
Lemma endARSession_keeps_placement (w : World) :
  placed (closure (snd (endARSession w))) = placed (closure w)
  /\ pictureGroup (closure (snd (endARSession w))) = pictureGroup (closure w)
  /\ placements (snd (endARSession w)) = placements w.
Proof.
  pose proof (endARSession_effect w) as (_ & _ & _ & _ & Hcl & Hpl & _).
  cbv zeta in Hcl. rewrite Hcl. auto.
Qed.

(** Once the plane is placed, no listener moves it or places again. *)
Lemma dispatch_after_placement (e : Event) (w : World) :
  placed (closure w) = true ->
  placed (closure (snd (dispatch e w))) = true
  /\ pictureGroup (closure (snd (dispatch e w))) = pictureGroup (closure w)
  /\ placements (snd (dispatch e w)) = placements w.
Proof.
  destruct w as [[s f c ht] a [pl pg cam dg hh fb] [b con n ls cs ov]].
  cbn [closure placed]. intros ->.
  destruct e as [results | id missing rendered | | ].
  - run_handlers. destruct (existsb (String.eqb "select") ls); run_handlers.
    + destruct ht; run_handlers; rewrite ?andb_false_r; run_handlers;
        repeat split; count_lines.
    + repeat split.
  - run_handlers. destruct (existsb (String.eqb "frame") ls); run_handlers.
    + destruct missing; run_handlers; repeat split; count_lines.
    + repeat split.
  - run_handlers. destruct (existsb (String.eqb "end") ls); run_handlers.
    + match goal with
      | |- context [endARSession ?w0] =>
          destruct (endARSession_keeps_placement w0) as (Hp & Hg & Hn)
      end.
      rewrite Hp, Hg, Hn. repeat split; count_lines.
    + repeat split.
  - unfold dispatch, closeImageModal.
    match goal with
    | |- context [endARSession ?w0] =>
        destruct (endARSession_keeps_placement w0) as (Hp & Hg & Hn)
    end.
    rewrite Hp, Hg, Hn. repeat split.
Qed.

Lemma fire_timers_after_placement (w : World) :
  placed (closure w) = true ->
  placed (closure (fire_timers w)) = true
  /\ pictureGroup (closure (fire_timers w)) = pictureGroup (closure w)
  /\ placements (fire_timers w) = placements w.
Proof.
  destruct w as [[s f c ht] a [pl pg cam dg hh fb] [b con n ls cs ov]].
  cbn [closure placed]. intros ->.
  run_handlers. destruct fb as [deadline|]; [|repeat split].
  destruct (deadline <=? n)%N; run_handlers; repeat split.
Qed.

Lemma turn_after_placement (e : N * Event) (w : World) :
  placed (closure w) = true ->
  placed (closure (turn w e)) = true
  /\ pictureGroup (closure (turn w e)) = pictureGroup (closure w)
  /\ placements (turn w e) = placements w.
Proof.
  intros Hp. unfold turn.
  set (w1 := with_browser _ w).
  assert (H1 : placed (closure w1) = true) by exact Hp.
  destruct (fire_timers_after_placement w1 H1) as (Hp2 & Hg2 & Hn2).
  destruct (dispatch_after_placement (snd e) (fire_timers w1) Hp2) as (Hp3 & Hg3 & Hn3).
  rewrite Hg3, Hn3, Hg2, Hn2. auto.
Qed.

Lemma run_after_placement (events : list (N * Event)) (w : World) :
  placed (closure w) = true ->
  pictureGroup (closure (run events w)) = pictureGroup (closure w)
  /\ placements (run events w) = placements w.
Proof.
  revert w. induction events as [|e events IH]; intros w Hp; [split; reflexivity|].
  destruct (turn_after_placement e w Hp) as (Hp' & Hg & Hn).
  cbn [run fold_left]. fold (run events (turn w e)).
  destruct (IH (turn w e) Hp') as (Hg' & Hn').
  rewrite Hg', Hn'. auto.
Qed.

Lemma ready_waiting (w : World) :
  ready w -> waiting (now (browser w) + 5000)%N w.
Proof.
  intros (Hp & Hf & Hs & Hh). unfold waiting. repeat split; auto. lia.
Qed.

(** A quiet turn before the deadline leaves the session waiting and the
    plane where it was. *)
Lemma quiet_turn (deadline : N) (e : N * Event) (w : World) :
  waiting deadline w -> quiet e ->
  (now (browser w) + fst e < deadline)%N ->
  waiting deadline (turn w e)
  /\ now (browser (turn w e)) = (now (browser w) + fst e)%N
  /\ pictureGroup (closure (turn w e)) = pictureGroup (closure w)
  /\ h (closure (turn w e)) = h (closure w)
  /\ placements (turn w e) = placements w.
Proof.
  destruct w as [[s f c ht] a [pl pg cam dg hh fb] [b con n ls cs ov]].
  destruct e as [d ev].
  unfold waiting, quiet, registered.
  cbn [fst snd closure refs browser placed fallbackId hitTestSourceRef now
       listeners].
  intros (-> & -> & Hsel & Hht & Hnow) Hq Hd.
  destruct ht as [| |source]; try discriminate Hht.
  assert (Hlate : (deadline <=? n + d)%N = false) by (apply N.leb_gt; exact Hd).
  destruct ev as [[|r rs] | id missing rendered | | ]; try contradiction.
  - run_handlers. rewrite Hlate. run_handlers. rewrite Hsel. run_handlers.
    repeat split; auto; count_lines.
  - run_handlers. rewrite Hlate. run_handlers.
    destruct (existsb (String.eqb "frame") ls); run_handlers.
    + destruct missing; run_handlers; repeat split; auto; count_lines.
    + repeat split; auto.
Qed.

Lemma run_app (pre post : list (N * Event)) (w : World) :
  run (pre ++ post) w = run post (run pre w).
Proof. unfold run. apply fold_left_app. Qed.

Lemma quiet_run (deadline : N) (pre : list (N * Event)) (w : World) :
  waiting deadline w -> Forall quiet pre ->
  (now (browser w) + elapsed pre < deadline)%N ->
  waiting deadline (run pre w)
  /\ now (browser (run pre w)) = (now (browser w) + elapsed pre)%N
  /\ pictureGroup (closure (run pre w)) = pictureGroup (closure w)
  /\ h (closure (run pre w)) = h (closure w)
  /\ placements (run pre w) = placements w.
Proof.
  revert w. induction pre as [|e pre IH]; intros w Hw Hq Ht.
  - cbn [run fold_left elapsed fold_right].
    split; [exact Hw|]. repeat split; auto. lia.
  - inversion Hq as [|e' pre' He Hpre]; subst.
    cbn [elapsed fold_right] in Ht. fold (elapsed pre) in Ht.
    assert (Hd : (now (browser w) + fst e < deadline)%N) by lia.
    destruct (quiet_turn deadline e w Hw He Hd) as (Hw1 & Hn1 & Hg1 & Hh1 & Hp1).
    cbn [run fold_left]. fold (run pre (turn w e)).
    assert (Ht1 : (now (browser (turn w e)) + elapsed pre < deadline)%N)
      by (rewrite Hn1; lia).
    destruct (IH (turn w e) Hw1 Hpre Ht1) as (Hw2 & Hn2 & Hg2 & Hh2 & Hp2).
    rewrite Hn2, Hg2, Hh2, Hp2, Hn1, Hg1, Hh1, Hp1.
    cbn [elapsed fold_right]. fold (elapsed pre).
    split; [exact Hw2|]. repeat split; auto. lia.
Qed.

(** A select gesture with a hit-test result that has a pose, before the
    deadline, places the plane at that pose. *)
Lemma select_turn_places (deadline d : N) (r : XRHitTestResult)
    (rs : list XRHitTestResult) (pose : XRRigidTransform) (w : World) :
  waiting deadline w -> (now (browser w) + d < deadline)%N ->
  getPose r = Some pose ->
  let w' := turn w (d, select (r :: rs)) in
  placed (closure w') = true
  /\ pictureGroup (closure w')
     = {| obj_position := position pose;
          obj_rotation := Copied (orientation pose) |}
  /\ placements w' = S (placements w).
Proof.
  destruct w as [[s f c ht] a [pl pg cam dg hh fb] [b con n ls cs ov]].
  unfold waiting, registered.
  cbn [fst snd closure refs browser placed fallbackId hitTestSourceRef now
       listeners].
  intros (-> & -> & Hsel & Hht & Hnow) Hd Hpose.
  destruct ht as [| |source]; try discriminate Hht.
  assert (Hlate : (deadline <=? n + d)%N = false) by (apply N.leb_gt; exact Hd).
  run_handlers. rewrite Hlate. run_handlers. rewrite Hsel. run_handlers.
  cbn [length Nat.eqb negb andb]. rewrite Hpose. run_handlers.
  repeat split; count_lines.
Qed.

(** The first turn at or after the deadline fires the fallback timer,
    which places the plane at the fallback pose. *)
Lemma deadline_turn_places (deadline : N) (e : N * Event) (w : World) :
  pending deadline w -> (deadline <= now (browser w) + fst e)%N ->
  placed (closure (turn w e)) = true
  /\ pictureGroup (closure (turn w e))
     = fallbackPose (camera_position (closure w)) (h (closure w))
  /\ placements (turn w e) = S (placements w).
Proof.
  intros (Hp & Hf) Hd.
  unfold turn.
  set (w1 := with_browser _ w).
  assert (Hfire : placed (closure (fire_timers w1)) = true
                  /\ pictureGroup (closure (fire_timers w1))
                     = fallbackPose (camera_position (closure w)) (h (closure w))
                  /\ placements (fire_timers w1) = S (placements w)).
  { subst w1.
    destruct w as [[s f c ht] a [pl pg cam dg hh fb] [b con n ls cs ov]].
    cbn [closure browser placed fallbackId now fst] in *. subst pl fb.
    run_handlers.
    assert (Hdue : (deadline <=? n + fst e)%N = true) by (apply N.leb_le; exact Hd).
    rewrite Hdue. run_handlers. repeat split; count_lines. }
  destruct Hfire as (Hp1 & Hg1 & Hn1).
  destruct (dispatch_after_placement (snd e) (fire_timers w1) Hp1)
    as (Hp2 & Hg2 & Hn2).
  rewrite Hg2, Hn2, Hg1, Hn1. auto.
Qed.

(** A launch on which every step succeeds returns with the session ready
    for placement. *)
Lemma launchAR_ready (platform : Platform) (size : Size) (w : World) :
  all_steps_succeed platform = true ->
  fst (launchAR true platform size w) = Returned tt
  /\ ready (snd (launchAR true platform size w)).
Proof.
  intros Hok. unfold launchAR, bind. rewrite logDebug_run. cbn [negb].
  set (w0 := with_browser _ w).
  pose proof (launchAR_try_outcome platform size w0) as Hout.
  rewrite Hok in Hout. destruct Hout as (Hret & Hready & _).
  unfold try_catch.
  destruct (launchAR_try platform size w0) as [o w1].
  cbn [fst snd] in *. subst o. cbn [fst snd]. auto.
Qed.

(** When the first hit-test result of the first gesture has a pose, the
    placement is final.  After a set-up, if the events before a select
    gesture place nothing, the gesture comes before 5000 ms have elapsed,
    and its first hit-test result has a pose, then the plane is at that
    pose after every continuation of the trace (the fallback timer
    firing, later gestures, the end of the session), and exactly one
    placement has been made. *)
Lemma select_with_pose_is_final
    (w : World) (pre post : list (N * Event)) (d : N)
    (r : XRHitTestResult) (rs : list XRHitTestResult) (pose : XRRigidTransform) :
  ready w -> Forall quiet pre ->
  (elapsed pre + d < 5000)%N ->
  getPose r = Some pose ->
  let final := run (pre ++ (d, select (r :: rs)) :: post) w in
  pictureGroup (closure final)
  = {| obj_position := position pose; obj_rotation := Copied (orientation pose) |}
  /\ placements final = S (placements w).
Proof.
  intros Hready Hquiet Htime Hpose final. subst final.
  apply ready_waiting in Hready.
  set (deadline := (now (browser w) + 5000)%N) in *.
  assert (Hpre : (now (browser w) + elapsed pre < deadline)%N)
    by (unfold deadline; lia).
  destruct (quiet_run deadline pre w Hready Hquiet Hpre)
    as (Hw1 & Hn1 & _ & _ & Hp1).
  rewrite run_app. cbn [run fold_left].
  fold (run post (turn (run pre w) (d, select (r :: rs)))).
  assert (Hsel : (now (browser (run pre w)) + d < deadline)%N)
    by (rewrite Hn1; unfold deadline; lia).
  destruct (select_turn_places deadline d r rs pose (run pre w) Hw1 Hsel Hpose)
    as (Hp2 & Hg2 & Hn2).
  destruct (run_after_placement post _ Hp2) as (Hg3 & Hn3).
  rewrite Hg3, Hn3, Hg2, Hn2, Hp1. auto.
Qed.

(** A select gesture whose first hit-test result has no pose, before the
    deadline: the guard is set, the listener throws on the missing pose,
    and nothing is placed. *)
Lemma poseless_select_turn (deadline d : N) (r : XRHitTestResult)
    (rs : list XRHitTestResult) (w : World) :
  waiting deadline w -> (now (browser w) + d < deadline)%N ->
  getPose r = None ->
  let w' := turn w (d, select (r :: rs)) in
  placed (closure w') = true
  /\ pictureGroup (closure w') = pictureGroup (closure w)
  /\ placements w' = placements w.
Proof.
  destruct w as [[s f c ht] a [pl pg cam dg hh fb] [b con n ls cs ov]].
  unfold waiting, registered.
  cbn [fst snd closure refs browser placed fallbackId hitTestSourceRef now
       listeners].
  intros (-> & -> & Hsel & Hht & Hnow) Hd Hpose.
  destruct ht as [| |source]; try discriminate Hht.
  assert (Hlate : (deadline <=? n + d)%N = false) by (apply N.leb_gt; exact Hd).
  run_handlers. rewrite Hlate. run_handlers. rewrite Hsel. run_handlers.
  cbn [length Nat.eqb negb andb]. rewrite Hpose. run_handlers.
  repeat split; count_lines.
Qed.

Lemma run_stays_placed (events : list (N * Event)) (w : World) :
  placed (closure w) = true -> placed (closure (run events w)) = true.
Proof.
  revert w. induction events as [|e events IH]; intros w Hp; [exact Hp|].
  cbn [run fold_left]. fold (run events (turn w e)).
  apply IH. apply (turn_after_placement e w Hp).
Qed.

(** C4, where the code departs from it: a hit that has no pose uses up
    the one placement.  After a set-up, if the events before a select
    gesture place nothing, the gesture comes before 5000 ms have elapsed
    with a non-empty hit-test result whose first entry has no pose
    ([getPose] returns [null]), then the guard [placed] is set before the
    pose is read, the listener throws, and over every continuation of the
    trace (the fallback timer firing, later gestures with a pose) the
    plane stays where the set-up left it and no placement is ever made:
    there is no successful placement, and the fallback does not make up
    for it. *)
Theorem poseless_hit_blocks_every_placement
    (w : World) (pre post : list (N * Event)) (d : N)
    (r : XRHitTestResult) (rs : list XRHitTestResult) :
  ready w -> Forall quiet pre ->
  (elapsed pre + d < 5000)%N ->
  getPose r = None ->
  let final := run (pre ++ (d, select (r :: rs)) :: post) w in
  placed (closure final) = true
  /\ pictureGroup (closure final) = pictureGroup (closure w)
  /\ placements final = placements w.
Proof.
  intros Hready Hquiet Htime Hpose final. subst final.
  apply ready_waiting in Hready.
  set (deadline := (now (browser w) + 5000)%N) in *.
  assert (Hpre : (now (browser w) + elapsed pre < deadline)%N)
    by (unfold deadline; lia).
  destruct (quiet_run deadline pre w Hready Hquiet Hpre)
    as (Hw1 & Hn1 & Hg1 & _ & Hp1).
  rewrite run_app. cbn [run fold_left].
  fold (run post (turn (run pre w) (d, select (r :: rs)))).
  assert (Hsel : (now (browser (run pre w)) + d < deadline)%N)
    by (rewrite Hn1; unfold deadline; lia).
  destruct (poseless_select_turn deadline d r rs (run pre w) Hw1 Hsel Hpose)
    as (Hp2 & Hg2 & Hn2).
  destruct (run_after_placement post _ Hp2) as (Hg3 & Hn3).
  split; [apply run_stays_placed; exact Hp2|].
  rewrite Hg3, Hn3, Hg2, Hn2, Hg1, Hp1. auto.
Qed.

Lemma set_up_ready : ready set_up.
Proof. repeat split; vm_compute; reflexivity. Defined.

Lemma quiet_prefix :
  Forall quiet [(1000%N, select []); (16%N, frame 1%nat false standing)].
Proof. repeat constructor. Defined.

Lemma select_with_pose_is_final_on_a_run :
  let final :=
    run ([(1000%N, select []); (16%N, frame 1%nat false standing)]
         ++ (2000%N, select [ {| getPose := Some floor_pose |} ])
         :: [(3000%N, frame 2%nat false standing);
             (10%N, select [ {| getPose := Some wall_pose |} ]);
             (10%N, session_ended)]) set_up in
  pictureGroup (closure final)
  = {| obj_position := position floor_pose;
       obj_rotation := Copied (orientation floor_pose) |}
  /\ placements final = S (placements set_up).
Proof.
  apply (select_with_pose_is_final set_up
           [(1000%N, select []); (16%N, frame 1%nat false standing)]
           [(3000%N, frame 2%nat false standing);
            (10%N, select [ {| getPose := Some wall_pose |} ]);
            (10%N, session_ended)]
           2000%N {| getPose := Some floor_pose |} [] floor_pose
           set_up_ready quiet_prefix).
  - vm_compute. reflexivity.
  - reflexivity.
Defined.

Lemma poseless_hit_blocks_every_placement_witness :
  let final :=
    run ([(1000%N, select []); (16%N, frame 1%nat false standing)]
         ++ (2000%N, select [ {| getPose := None |} ])
         :: [(3000%N, frame 2%nat false standing);
             (10%N, select [ {| getPose := Some wall_pose |} ])]) set_up in
  placed (closure final) = true
  /\ pictureGroup (closure final) = pictureGroup (closure set_up)
  /\ placements final = placements set_up.
Proof.
  apply (poseless_hit_blocks_every_placement set_up
           [(1000%N, select []); (16%N, frame 1%nat false standing)]
           [(3000%N, frame 2%nat false standing);
            (10%N, select [ {| getPose := Some wall_pose |} ])]
           2000%N {| getPose := None |} []
           set_up_ready quiet_prefix).
  - vm_compute. reflexivity.
  - reflexivity.
Defined.

(** C5, as stated: refuted.  The fallback pose takes only the height from
    the camera.  With the camera moved to (0.2, 1.5, 0.1) by the first
    rendered frame and no hit before 5000 ms, the timer puts the 8x10
    print at (0, 1.5 - 0.2032/2, -2): not straight ahead of the camera
    (x is 0, not 0.2) and below its height. *)
Lemma fallback_pose_ignores_where_the_camera_is :
  ~ placed_in_front_at_eye_height
      [(1000%N, frame 1%nat false standing); (4500%N, select [])] set_up.
Proof.
  unfold placed_in_front_at_eye_height, in_front_at_eye_height.
  vm_compute. intros [Hx _]. discriminate Hx.
Qed.

(** C5, amended: if no select gesture produces a hit-test result before
    5000 ms have elapsed since the set-up, and the session has not ended,
    the first turn of the event loop at or after 5000 ms places the plane
    at x = 0, z = -2, centred half the print's height below the height
    the camera then has, and turned towards the camera's position
    wherever that is; over the whole trace, whatever follows, exactly one
    placement is made. *)
Theorem fallback_places_once_at_fixed_pose
    (w : World) (pre post : list (N * Event)) (e : N * Event) :
  ready w -> Forall quiet pre ->
  (elapsed pre < 5000)%N -> (5000 <= elapsed pre + fst e)%N ->
  let camera := camera_position (closure (run pre w)) in
  let final := run (pre ++ e :: post) w in
  let p := {| vx := 0; vy := vy camera - h (closure w) / 2; vz := - (2) |} in
  pictureGroup (closure final)
  = {| obj_position := p; obj_rotation := LookAt p camera |}
  /\ placements final = S (placements w).
Proof.
  intros Hready Hquiet Hbefore Hafter camera final p.
  subst camera final p.
  apply ready_waiting in Hready.
  set (deadline := (now (browser w) + 5000)%N) in *.
  assert (Hpre : (now (browser w) + elapsed pre < deadline)%N)
    by (unfold deadline; lia).
  destruct (quiet_run deadline pre w Hready Hquiet Hpre)
    as (Hw1 & Hn1 & _ & Hh1 & Hp1).
  assert (Hpending : pending deadline (run pre w))
    by (destruct Hw1 as (Hp & Hf & _); split; assumption).
  rewrite run_app. cbn [run fold_left].
  fold (run post (turn (run pre w) e)).
  assert (Hdue : (deadline <= now (browser (run pre w)) + fst e)%N)
    by (rewrite Hn1; unfold deadline; lia).
  destruct (deadline_turn_places deadline e (run pre w) Hpending Hdue)
    as (Hp2 & Hg2 & Hn2).
  destruct (run_after_placement post _ Hp2) as (Hg3 & Hn3).
  rewrite Hg3, Hn3, Hg2, Hn2, Hp1, Hh1. unfold fallbackPose. auto.
Qed.

Lemma fallback_places_once_at_fixed_pose_witness :
  let camera :=
    camera_position
      (closure (run [(1000%N, select []); (16%N, frame 1%nat false standing)]
                  set_up)) in
  let final :=
    run ([(1000%N, select []); (16%N, frame 1%nat false standing)]
         ++ (4000%N, select [ {| getPose := Some wall_pose |} ])
         :: [(10%N, session_ended)]) set_up in
  let p := {| vx := 0; vy := vy camera - h (closure set_up) / 2; vz := - (2) |} in
  pictureGroup (closure final)
  = {| obj_position := p; obj_rotation := LookAt p camera |}
  /\ placements final = S (placements set_up).
Proof.
  apply (fallback_places_once_at_fixed_pose set_up
           [(1000%N, select []); (16%N, frame 1%nat false standing)]
           [(10%N, session_ended)]
           (4000%N, select [ {| getPose := Some wall_pose |} ])
           set_up_ready quiet_prefix).
  - vm_compute. reflexivity.
  - vm_compute. discriminate.
Defined.

(** ** The document invariant

    [canvas_in_document], under which teardown clears the canvas ref, holds
    initially and is kept by every launch and by every turn of the event
    loop. *)

Lemma canvas_in_document_initial : canvas_in_document initial.
Proof. intros c Hc. discriminate Hc. Qed.

Lemma canvas_in_document_endARSession (w : World) :
  canvas_in_document w -> canvas_in_document (snd (endARSession w)).
Proof.
  intros Hdoc c Hc.
  pose proof (endARSession_effect w) as (_ & _ & _ & _ & _ & _ & Hnone).
  rewrite (Hnone Hdoc) in Hc. discriminate Hc.
Qed.

Lemma canvas_in_document_launchAR
    (isARSupported : bool) (platform : Platform) (size : Size) (w : World) :
  canvas_in_document w ->
  canvas_in_document (snd (launchAR isARSupported platform size w)).
Proof.
  intros Hdoc. unfold launchAR, bind. rewrite logDebug_run.
  pose proof (canvas_in_document_logged "→ launchAR()" w Hdoc) as Hdoc0.
  rewrite logDebug_run in Hdoc0. cbn [snd] in Hdoc0.
  set (w0 := with_browser _ w) in *.
  destruct isARSupported; cbn [negb].
  - pose proof (launchAR_try_outcome platform size w0) as Hout.
    unfold try_catch.
    destruct (launchAR_try platform size w0) as [o w1].
    cbn [fst snd] in Hout.
    destruct (all_steps_succeed platform).
    + destruct Hout as (-> & _ & Hdoc1). exact Hdoc1.
    + destruct Hout as [[e ->] Hdoc1]. rewrite logDebug_run.
      apply canvas_in_document_endARSession.
      intros c Hc. apply (Hdoc1 Hdoc0 c Hc).
  - apply canvas_in_document_logged. exact Hdoc0.
Qed.

Lemma canvas_in_document_turn (w : World) (e : N * Event) :
  canvas_in_document w -> canvas_in_document (turn w e).
Proof.
  intros Hdoc. unfold turn.
  set (w1 := with_browser _ w).
  assert (H1 : canvas_in_document w1) by (intros c Hc; apply (Hdoc c Hc)).
  assert (H2 : canvas_in_document (fire_timers w1)).
  { clearbody w1. clear Hdoc w.
    destruct w1 as [[s f c ht] a [pl pg cam dg hh fb] [b con n ls cs ov]].
    unfold canvas_in_document in *. run_handlers.
    destruct fb as [deadline|]; [|exact H1].
    destruct (deadline <=? n)%N; [|exact H1].
    destruct pl; run_handlers; exact H1. }
  generalize dependent (fire_timers w1). clear.
  intros w Hdoc.
  destruct w as [[s f c ht] a [pl pg cam dg hh fb] [b con n ls cs ov]].
  destruct e as [d [results | id missing rendered | | ]]; cbn [snd].
  - unfold canvas_in_document in *. run_handlers.
    destruct (existsb (String.eqb "select") ls); run_handlers; [|exact Hdoc].
    destruct ht; run_handlers; try exact Hdoc.
    destruct (negb (Datatypes.length results =? 0) && negb pl);
      run_handlers; [|exact Hdoc].
    destruct results as [|[[pose|]] rs]; run_handlers; exact Hdoc.
  - unfold canvas_in_document in *. run_handlers.
    destruct (existsb (String.eqb "frame") ls); run_handlers; [|exact Hdoc].
    destruct missing; run_handlers; exact Hdoc.
  - unfold dispatch, registered, bind, read, when.
    cbn [browser listeners].
    destruct (existsb (String.eqb "end") ls); [|exact Hdoc].
    unfold onEnd, bind. rewrite logDebug_run.
    unfold update, call, update.
    apply canvas_in_document_endARSession.
    intros c' Hc'. apply (Hdoc c' Hc').
  - unfold dispatch, closeImageModal.
    apply canvas_in_document_endARSession. exact Hdoc.
Qed.

Lemma canvas_in_document_run (events : list (N * Event)) (w : World) :
  canvas_in_document w -> canvas_in_document (run events w).
Proof.
  revert w. induction events as [|e events IH]; intros w Hdoc; [exact Hdoc|].
  cbn [run fold_left]. apply IH, canvas_in_document_turn, Hdoc.
Qed.

(** ** Concrete runs *)

(** The pointer at the top-left corner: the origin clamps to (0,0). *)
Example top_left_pointer_clamps_to_origin :
  option_map (fun r => (x r, y r))
    (getMagnifyParams large_doc (Some 0%nat) (Some 0%nat)
       {| px := Fin 0; py := Fin 0 |}
       (Some defaultStage) (Some defaultMag) (Some defaultZoom))
  = Some (Fin 0, Fin 0).
Proof. vm_compute. reflexivity. Qed.

(** An image of width 0 magnified against another reference image: the
    paint scale divides by [0 / referenceWidth] and is infinite. *)
Example zero_width_image_has_infinite_scale :
  option_map scaleX
    (getMagnifyParams
       (fun i => match i with
                 | O => {| width := Fin 3000; height := Fin 2000 |}
                 | _ => {| width := Fin 0; height := Fin 0 |}
                 end)
       (Some 1%nat) (Some 0%nat) {| px := Fin 10; py := Fin 20 |}
       None None None)
  = Some PosInf.
Proof. vm_compute. reflexivity. Qed.

(** The world in which a launch fails at the local reference space: the
    session and the canvas are held, the frame id and the hit-test source
    are not. *)
Example partly_set_up_refs :
  refs partly_set_up
  = {| xrSessionRef := Some 7%nat; frameRef := None;
       canvasRef := Some 3%nat; hitTestSourceRef := Undefined |}.
Proof. vm_compute. reflexivity. Qed.

(** Teardown of a running session releases, in order, the session, the
    pending frame, the canvas and the hit-test source. *)
Example teardown_order :
  calls (browser (run [(16%N, frame 42%nat false standing); (100%N, modal_closed)]
                    set_up))
  = [session_end 7%nat; cancelAnimationFrame 42%nat; removeChild 3%nat;
     hitTestSource_cancel 5%nat].
Proof. vm_compute. reflexivity. Qed.

(** * Further properties *)

(** ** The transform: where the sampled region lies *)

Lemma eqv_fin_inv (a : number) (q : Q) :
  (a =~ Fin q)%js -> exists q', a = Fin q' /\ q' == q.
Proof. destruct a; simpl; try contradiction. eauto. Qed.

(** The transform at positive sizes and settings, the same for a rescaled
    and for an unrescaled image: every field in closed form. *)
Lemma magnify_fields
    (dom : Document) (image : ImageHandle) (reference : option ImageHandle)
    (mx my sw sh mw mh z wi hi rw rh : Q) :
  image_sizes dom image reference wi hi rw rh ->
  positive_settings sw sh mw mh z ->
  let cx := mx / (sw / rw) in
  let cy := my / (sh / rh) in
  let sx := Qmax 0 (Qmin (cx - mw / z / 2) (rw - mw / z)) in
  let sy := Qmax 0 (Qmin (cy - mh / z / 2) (rh - mh / z)) in
  exists r,
    magnify dom image reference mx my sw sh mw mh z = Some r
    /\ ((x r =~ Fin (sx * (wi / rw)))%js /\ (y r =~ Fin (sy * (hi / rh)))%js)
    /\ ((scaleX r =~ Fin (z / (wi / rw)))%js /\ (scaleY r =~ Fin (z / (hi / rh)))%js)
    /\ (sourceWidth r = Fin (mw / z) /\ sourceHeight r = Fin (mh / z))
    /\ (centerX r = Fin cx /\ centerY r = Fin cy).
Proof.
  intros ((Ewi & Ehi) & (Erw & Erh) & (Pwi & Phi) & (Prw & Prh))
         ((Psw & Psh) & (Pmw & Pmh) & Pz) cx cy sx sy.
  unfold magnify.
  rewrite (getMagnifyParams_closed_form dom image reference mx my
             sw sh mw mh z wi hi rw rh) by (assumption || lra).
  fold cx cy. fold sx sy.
  assert (Hsame : match reference with
                  | Some r => not_same image r
                  | None => false
                  end = false -> wi = rw /\ hi = rh).
  { destruct reference as [r|]; cbn [referenceOf] in Erw, Erh.
    - unfold not_same. destruct (Nat.eqb_spec image r) as [->|]; [|discriminate].
      intros _. rewrite Ewi in Erw. rewrite Ehi in Erh.
      injection Erw as <-. injection Erh as <-. auto.
    - intros _. rewrite Ewi in Erw. rewrite Ehi in Erh.
      injection Erw as <-. injection Erh as <-. auto. }
  destruct (match reference with
            | Some r => not_same image r
            | None => false
            end).
  - eexists. split; [reflexivity|]. cbn. repeat split; reflexivity.
  - destruct (Hsame eq_refl) as [<- <-].
    eexists. split; [reflexivity|].
    cbn [x y scaleX scaleY sourceWidth sourceHeight centerX centerY eqv].
    repeat split; try reflexivity; field; lra.
Qed.

(** X1: near the top-left corner the region is pinned at the origin.  When
    the pointer maps to within half a region of the left and top edges
    ([centerX <= sourceWidth/2], [centerY <= sourceHeight/2]), [x] and [y]
    are 0, whatever the sizes of the images. *)
Theorem origin_pinned_near_top_left
    (dom : Document) (image : ImageHandle) (reference : option ImageHandle)
    (mx my sw sh mw mh z wi hi rw rh : Q) :
  image_sizes dom image reference wi hi rw rh ->
  positive_settings sw sh mw mh z ->
  mx / (sw / rw) <= mw / z / 2 ->
  my / (sh / rh) <= mh / z / 2 ->
  exists r,
    magnify dom image reference mx my sw sh mw mh z = Some r
    /\ (x r =~ Fin 0)%js /\ (y r =~ Fin 0)%js.
Proof.
  intros Hsizes Hset Hx Hy.
  destruct (magnify_fields dom image reference mx my sw sh mw mh z wi hi rw rh
              Hsizes Hset) as (r & Er & (Ex & Ey) & _).
  exists r. split; [exact Er|].
  split; [eapply eqv_trans; [exact Ex|] | eapply eqv_trans; [exact Ey|]];
    cbn [eqv].
  - rewrite (Q.max_l 0); [ring|].
    eapply Qle_trans; [apply Q.le_min_l|]. lra.
  - rewrite (Q.max_l 0); [ring|].
    eapply Qle_trans; [apply Q.le_min_l|]. lra.
Qed.

Lemma two_sizes_image_sizes :
  image_sizes two_sizes_doc 1%nat (Some 0%nat) 1500 1000 3000 2000.
Proof. repeat split. Defined.

Lemma default_settings : positive_settings 400 300 400 400 0.5.
Proof. repeat split. Defined.

Lemma origin_pinned_near_top_left_witness :
  exists r,
    magnify two_sizes_doc 1%nat (Some 0%nat) 0 0 400 300 400 400 0.5 = Some r
    /\ (x r =~ Fin 0)%js /\ (y r =~ Fin 0)%js.
Proof.
  apply (origin_pinned_near_top_left two_sizes_doc 1%nat (Some 0%nat)
           0 0 400 300 400 400 0.5 1500 1000 3000 2000
           two_sizes_image_sizes default_settings);
    vm_compute; discriminate.
Defined.

Lemma Qdiv_le_compat_pos (a b d : Q) : 0 < d -> a <= b -> a / d <= b / d.
Proof.
  intros Hd Hab. unfold Qdiv. apply Qmult_le_compat_r; [exact Hab|].
  apply Qinv_le_0_compat. lra.
Qed.

Lemma clamp_centred (c s t : Q) :
  s / 2 <= c -> c <= t - s / 2 ->
  Qmax 0 (Qmin (c - s / 2) (t - s)) == c - s / 2.
Proof.
  intros H0 H1.
  assert (Eh : s / 2 == s * (1 # 2)) by reflexivity.
  rewrite Q.max_r; [apply Q.min_l; lra | apply Q.min_glb; lra].
Qed.

Lemma clamp_far (c s t : Q) :
  s <= t -> t - s / 2 <= c ->
  Qmax 0 (Qmin (c - s / 2) (t - s)) == t - s.
Proof.
  intros H0 H1.
  assert (Eh : s / 2 == s * (1 # 2)) by reflexivity.
  rewrite Q.max_r; [apply Q.min_r; lra | apply Q.min_glb; lra].
Qed.

(** X2: away from the edges the region is centred on the pointer.  When
    the region centred on [(centerX, centerY)] lies inside the reference
    image, the origin is [centerX - sourceWidth/2], [centerY -
    sourceHeight/2], carried over to the magnified image's own pixels. *)
Theorem region_centred_on_pointer
    (dom : Document) (image : ImageHandle) (reference : option ImageHandle)
    (mx my sw sh mw mh z wi hi rw rh : Q) :
  image_sizes dom image reference wi hi rw rh ->
  positive_settings sw sh mw mh z ->
  mw / z / 2 <= mx / (sw / rw) <= rw - mw / z / 2 ->
  mh / z / 2 <= my / (sh / rh) <= rh - mh / z / 2 ->
  exists r,
    magnify dom image reference mx my sw sh mw mh z = Some r
    /\ (x r =~ (centerX r - sourceWidth r / Fin 2) * (Fin wi / Fin rw))%js
    /\ (y r =~ (centerY r - sourceHeight r / Fin 2) * (Fin hi / Fin rh))%js.
Proof.
  intros Hsizes Hset [Hx0 Hx1] [Hy0 Hy1].
  destruct (magnify_fields dom image reference mx my sw sh mw mh z wi hi rw rh
              Hsizes Hset) as (r & Er & (Ex & Ey) & _ & (Esw & Esh) & (Ecx & Ecy)).
  destruct Hsizes as (_ & _ & (Pwi & Phi) & (Prw & Prh)).
  exists r. split; [exact Er|].
  rewrite Esw, Esh, Ecx, Ecy.
  rewrite !(div_fin _ 2), (div_fin wi rw), (div_fin hi rh) by lra.
  split; [eapply eqv_trans; [exact Ex|] | eapply eqv_trans; [exact Ey|]];
    cbn [eqv sub add neg mul].
  - rewrite (clamp_centred (mx / (sw / rw)) (mw / z) rw) by assumption. ring.
  - rewrite (clamp_centred (my / (sh / rh)) (mh / z) rh) by assumption. ring.
Qed.

Lemma region_centred_on_pointer_witness :
  exists r,
    magnify two_sizes_doc 1%nat (Some 0%nat) 200 150 400 300 400 400 0.5 = Some r
    /\ (x r =~ (centerX r - sourceWidth r / Fin 2) * (Fin 1500 / Fin 3000))%js
    /\ (y r =~ (centerY r - sourceHeight r / Fin 2) * (Fin 1000 / Fin 2000))%js.
Proof.
  apply (region_centred_on_pointer two_sizes_doc 1%nat (Some 0%nat)
           200 150 400 300 400 400 0.5 1500 1000 3000 2000
           two_sizes_image_sizes default_settings);
    vm_compute; split; discriminate.
Defined.

(** X3: near the far edges the region shifts instead of leaving the image.
    When the region fits in the reference image and the pointer maps to
    within half a region of the right and bottom edges, the origin is
    [referenceWidth - sourceWidth], [referenceHeight - sourceHeight],
    carried over to the magnified image's own pixels. *)
Theorem region_shifted_at_far_edges
    (dom : Document) (image : ImageHandle) (reference : option ImageHandle)
    (mx my sw sh mw mh z wi hi rw rh : Q) :
  image_sizes dom image reference wi hi rw rh ->
  positive_settings sw sh mw mh z ->
  mw / z <= rw -> mh / z <= rh ->
  rw - mw / z / 2 <= mx / (sw / rw) ->
  rh - mh / z / 2 <= my / (sh / rh) ->
  exists r,
    magnify dom image reference mx my sw sh mw mh z = Some r
    /\ (x r =~ (Fin rw - sourceWidth r) * (Fin wi / Fin rw))%js
    /\ (y r =~ (Fin rh - sourceHeight r) * (Fin hi / Fin rh))%js.
Proof.
  intros Hsizes Hset Hfx Hfy Hx Hy.
  destruct (magnify_fields dom image reference mx my sw sh mw mh z wi hi rw rh
              Hsizes Hset) as (r & Er & (Ex & Ey) & _ & (Esw & Esh) & _).
  destruct Hsizes as (_ & _ & (Pwi & Phi) & (Prw & Prh)).
  exists r. split; [exact Er|].
  rewrite Esw, Esh.
  rewrite (div_fin wi rw), (div_fin hi rh) by lra.
  split; [eapply eqv_trans; [exact Ex|] | eapply eqv_trans; [exact Ey|]];
    cbn [eqv sub add neg mul].
  - rewrite (clamp_far (mx / (sw / rw)) (mw / z) rw) by assumption. ring.
  - rewrite (clamp_far (my / (sh / rh)) (mh / z) rh) by assumption. ring.
Qed.

Lemma region_shifted_at_far_edges_witness :
  exists r,
    magnify two_sizes_doc 1%nat (Some 0%nat) 390 290 400 300 400 400 0.5 = Some r
    /\ (x r =~ (Fin 3000 - sourceWidth r) * (Fin 1500 / Fin 3000))%js
    /\ (y r =~ (Fin 2000 - sourceHeight r) * (Fin 1000 / Fin 2000))%js.
Proof.
  apply (region_shifted_at_far_edges two_sizes_doc 1%nat (Some 0%nat)
           390 290 400 300 400 400 0.5 1500 1000 3000 2000
           two_sizes_image_sizes default_settings);
    vm_compute; discriminate.
Defined.

Lemma clamp_monotone (a b half top : Q) :
  a <= b ->
  Qmax 0 (Qmin (a - half) top) <= Qmax 0 (Qmin (b - half) top).
Proof.
  intros Hab.
  destruct (Q.max_spec 0 (Qmin (a - half) top)) as [[? Ea]|[? Ea]];
    destruct (Q.max_spec 0 (Qmin (b - half) top)) as [[? Eb]|[? Eb]];
    rewrite Ea, Eb;
    destruct (Q.min_spec (a - half) top) as [[? Ea']|[? Ea']];
    destruct (Q.min_spec (b - half) top) as [[? Eb']|[? Eb']];
    rewrite ?Ea', ?Eb' in *; lra.
Qed.

(** X4: the origin follows the pointer.  Moving the pointer right or down
    never moves the sampled region left or up. *)
Theorem origin_monotone_in_pointer
    (dom : Document) (image : ImageHandle) (reference : option ImageHandle)
    (mx my mx' my' sw sh mw mh z wi hi rw rh : Q) :
  image_sizes dom image reference wi hi rw rh ->
  positive_settings sw sh mw mh z ->
  mx <= mx' -> my <= my' ->
  exists r r',
    magnify dom image reference mx my sw sh mw mh z = Some r
    /\ magnify dom image reference mx' my' sw sh mw mh z = Some r'
    /\ le_num (x r) (x r') /\ le_num (y r) (y r').
Proof.
  intros Hsizes Hset Hmx Hmy.
  destruct (magnify_fields dom image reference mx my sw sh mw mh z wi hi rw rh
              Hsizes Hset) as (r & Er & (Ex & Ey) & _).
  destruct (magnify_fields dom image reference mx' my' sw sh mw mh z wi hi rw rh
              Hsizes Hset) as (r' & Er' & (Ex' & Ey') & _).
  destruct Hsizes as (_ & _ & (Pwi & Phi) & (Prw & Prh)).
  destruct Hset as ((Psw & Psh) & _).
  exists r, r'. split; [exact Er|]. split; [exact Er'|].
  destruct (eqv_fin_inv _ _ Ex) as (qx & -> & Hqx).
  destruct (eqv_fin_inv _ _ Ey) as (qy & -> & Hqy).
  destruct (eqv_fin_inv _ _ Ex') as (qx' & -> & Hqx').
  destruct (eqv_fin_inv _ _ Ey') as (qy' & -> & Hqy').
  cbn [le_num]. rewrite Hqx, Hqy, Hqx', Hqy'.
  pose proof (Qdiv_pos wi rw Pwi Prw) as Kx.
  pose proof (Qdiv_pos hi rh Phi Prh) as Ky.
  pose proof (Qdiv_pos sw rw Psw Prw) as Dx.
  pose proof (Qdiv_pos sh rh Psh Prh) as Dy.
  split; (apply Qmult_le_compat_r; [|lra]); apply clamp_monotone;
    apply Qdiv_le_compat_pos; assumption.
Qed.

Lemma origin_monotone_in_pointer_witness :
  exists r r',
    magnify two_sizes_doc 1%nat (Some 0%nat) 100 100 400 300 400 400 0.5 = Some r
    /\ magnify two_sizes_doc 1%nat (Some 0%nat) 300 200 400 300 400 400 0.5 = Some r'
    /\ le_num (x r) (x r') /\ le_num (y r) (y r').
Proof.
  apply (origin_monotone_in_pointer two_sizes_doc 1%nat (Some 0%nat)
           100 100 300 200 400 300 400 400 0.5 1500 1000 3000 2000
           two_sizes_image_sizes default_settings);
    vm_compute; discriminate.
Defined.

(** X6: the output shows the same fraction of every image.  The image
    pixels painted across the output ([magWidth / scaleX]), as a fraction
    of the image's width, are the sampled width as a fraction of the
    reference width; likewise for the heights. *)
Theorem painted_fraction_is_sampled_fraction
    (dom : Document) (image : ImageHandle) (reference : option ImageHandle)
    (mx my sw sh mw mh z wi hi rw rh : Q) :
  image_sizes dom image reference wi hi rw rh ->
  positive_settings sw sh mw mh z ->
  exists r,
    magnify dom image reference mx my sw sh mw mh z = Some r
    /\ (Fin mw / scaleX r / Fin wi =~ sourceWidth r / Fin rw)%js
    /\ (Fin mh / scaleY r / Fin hi =~ sourceHeight r / Fin rh)%js.
Proof.
  intros Hsizes Hset.
  destruct (magnify_fields dom image reference mx my sw sh mw mh z wi hi rw rh
              Hsizes Hset) as (r & Er & _ & (Ezx & Ezy) & (Esw & Esh) & _).
  destruct Hsizes as (_ & _ & (Pwi & Phi) & (Prw & Prh)).
  destruct Hset as (_ & (Pmw & Pmh) & Pz).
  exists r. split; [exact Er|].
  destruct (eqv_fin_inv _ _ Ezx) as (zx & -> & Hzx).
  destruct (eqv_fin_inv _ _ Ezy) as (zy & -> & Hzy).
  rewrite Esw, Esh.
  pose proof (Qdiv_pos wi rw Pwi Prw) as Kx.
  pose proof (Qdiv_pos hi rh Phi Prh) as Ky.
  pose proof (Qdiv_pos z _ Pz Kx) as Zx. rewrite <- Hzx in Zx.
  pose proof (Qdiv_pos z _ Pz Ky) as Zy. rewrite <- Hzy in Zy.
  rewrite !div_fin by lra. cbn [eqv].
  split.
  - rewrite Hzx. field. repeat split; lra.
  - rewrite Hzy. field. repeat split; lra.
Qed.

Lemma painted_fraction_is_sampled_fraction_witness :
  exists r,
    magnify two_sizes_doc 1%nat (Some 0%nat) 100 100 400 300 400 400 0.5 = Some r
    /\ (Fin 400 / scaleX r / Fin 1500 =~ sourceWidth r / Fin 3000)%js
    /\ (Fin 400 / scaleY r / Fin 1000 =~ sourceHeight r / Fin 2000)%js.
Proof.
  apply (painted_fraction_is_sampled_fraction two_sizes_doc 1%nat (Some 0%nat)
           100 100 400 300 400 400 0.5 1500 1000 3000 2000
           two_sizes_image_sizes default_settings).
Defined.

(** ** The views *)

(** X7: the red rectangle frames the sampled region.  With the image as
    its own reference and the region clear of the edges, the rectangle
    [MainImageView] draws around the pointer, taken from displayed to image
    coordinates, is the rectangle the transform samples: same origin, same
    width and height. *)
Theorem lens_rectangle_frames_sampled_region
    (dom : Document) (image : ImageHandle)
    (mx my sw sh mw mh z wi hi : Q) :
  image_sizes dom image (Some image) wi hi wi hi ->
  positive_settings sw sh mw mh z ->
  mw / z / 2 <= mx / (sw / wi) <= wi - mw / z / 2 ->
  mh / z / 2 <= my / (sh / hi) <= hi - mh / z / 2 ->
  let stage := {| dwidth := Fin sw; dheight := Fin sh |} in
  let mag := {| dwidth := Fin mw; dheight := Fin mh |} in
  let pos := {| px := Fin mx; py := Fin my |} in
  exists r rectangle padding,
    magnify dom image (Some image) mx my sw sh mw mh z = Some r
    /\ MainImageView (Some image) false stage true pos
         (lensSize dom (Some image) mag (Fin z) stage)
       = MainStage padding (Fin sw) (Fin sh) (Some rectangle)
    /\ ((rect_x rectangle / (Fin sw / Fin wi) =~ x r)%js
        /\ (rect_y rectangle / (Fin sh / Fin hi) =~ y r)%js)
    /\ ((rect_width rectangle / (Fin sw / Fin wi) =~ sourceWidth r)%js
        /\ (rect_height rectangle / (Fin sh / Fin hi) =~ sourceHeight r)%js).
Proof.
  intros Hsizes Hset [Hx0 Hx1] [Hy0 Hy1] stage mag pos.
  destruct (magnify_fields dom image (Some image) mx my sw sh mw mh z wi hi wi hi
              Hsizes Hset) as (r & Er & (Ex & Ey) & _ & (Esw & Esh) & _).
  destruct Hsizes as ((Ewi & Ehi) & _ & (Pwi & Phi) & _).
  destruct Hset as ((Psw & Psh) & (Pmw & Pmh) & Pz).
  exists r.
  unfold MainImageView, lensSize, stage, mag, pos.
  cbn [dwidth dheight px py]. rewrite Ewi, Ehi.
  rewrite !div_fin by lra. cbn [mul isNaN].
  rewrite !div_fin by lra. cbn [sub add neg].
  do 2 eexists. split; [exact Er|]. split; [reflexivity|].
  cbn [rect_x rect_y rect_width rect_height].
  pose proof (Qdiv_pos sw wi Psw Pwi) as Kx.
  pose proof (Qdiv_pos sh hi Psh Phi) as Ky.
  rewrite !div_fin by lra. rewrite Esw, Esh.
  split; split.
  - apply eqv_sym. eapply eqv_trans; [exact Ex|]. cbn [eqv].
    rewrite (clamp_centred (mx / (sw / wi)) (mw / z) wi) by assumption.
    field. repeat split; lra.
  - apply eqv_sym. eapply eqv_trans; [exact Ey|]. cbn [eqv].
    rewrite (clamp_centred (my / (sh / hi)) (mh / z) hi) by assumption.
    field. repeat split; lra.
  - cbn [eqv]. field. repeat split; lra.
  - cbn [eqv]. field. repeat split; lra.
Qed.

Lemma large_doc_image_sizes :
  image_sizes large_doc 0%nat (Some 0%nat) 3000 2000 3000 2000.
Proof. repeat split. Defined.

Lemma lens_rectangle_frames_sampled_region_witness :
  let stage := {| dwidth := Fin 400; dheight := Fin 300 |} in
  let mag := {| dwidth := Fin 400; dheight := Fin 400 |} in
  let pos := {| px := Fin 200; py := Fin 150 |} in
  exists r rectangle padding,
    magnify large_doc 0%nat (Some 0%nat) 200 150 400 300 400 400 0.5 = Some r
    /\ MainImageView (Some 0%nat) false stage true pos
         (lensSize large_doc (Some 0%nat) mag (Fin 0.5) stage)
       = MainStage padding (Fin 400) (Fin 300) (Some rectangle)
    /\ ((rect_x rectangle / (Fin 400 / Fin 3000) =~ x r)%js
        /\ (rect_y rectangle / (Fin 300 / Fin 2000) =~ y r)%js)
    /\ ((rect_width rectangle / (Fin 400 / Fin 3000) =~ sourceWidth r)%js
        /\ (rect_height rectangle / (Fin 300 / Fin 2000) =~ sourceHeight r)%js).
Proof.
  apply (lens_rectangle_frames_sampled_region large_doc 0%nat
           200 150 400 300 400 400 0.5 3000 2000
           large_doc_image_sizes default_settings);
    vm_compute; split; discriminate.
Defined.

Lemma or_else_twice (a d : number) :
  truthy d = true -> ((a || d) || d)%js = (a || d)%js.
Proof.
  intros Hd. unfold or_else. destruct (truthy a) eqn:E.
  - now rewrite E.
  - now rewrite Hd.
Qed.

(** The defaults [MagnifiedView] applies before calling the transform are
    the ones the transform applies itself. *)
Lemma getMagnifyParams_predefaulted
    (dom : Document) (image reference : option ImageHandle) (pos : Position)
    (stage mag : option Dimensions) (zoom : option number) :
  getMagnifyParams dom image reference pos stage
    (Some (orDefault {| dwidth := Fin 400; dheight := Fin 400 |} mag))
    (Some (opt_or_else zoom (Fin 0.5)))
  = getMagnifyParams dom image reference pos stage mag zoom.
Proof.
  unfold getMagnifyParams. destruct image as [i|]; [|reflexivity].
  assert (Ez : opt_or_else (Some (opt_or_else zoom (Fin 0.5))) (Fin 0.5)
               = opt_or_else zoom (Fin 0.5)).
  { destruct zoom as [v|]; cbn [opt_or_else];
      [apply or_else_twice|]; reflexivity. }
  rewrite Ez. destruct mag as [m|]; reflexivity.
Qed.

(** X8: [MagnifiedView] shows the loader while loading or without an
    image, and otherwise the content with exactly the parameters
    [getMagnifyParams] computes from the props as given: the defaults the
    view applies itself to the output size and the zoom change nothing. *)
Theorem MagnifiedView_shows_the_transform
    (dom : Document) (image reference : option ImageHandle) (pos : Position)
    (stage mag : option Dimensions) (zoom : option number) (loading : bool) :
  MagnifiedView dom image reference pos stage mag zoom loading
  = match loading, image,
          getMagnifyParams dom image reference pos stage mag zoom with
    | false, Some i, Some r =>
        Content {| mvc_image := i;
                   mvc_params := r;
                   mvc_width := opt_or_else (option_map dwidth mag) (Fin 400);
                   mvc_height := opt_or_else (option_map dheight mag) (Fin 400) |}
    | _, _, _ => Loader
    end.
Proof.
  unfold MagnifiedView.
  destruct image as [i|]; [|destruct loading; reflexivity].
  rewrite getMagnifyParams_predefaulted. reflexivity.
Qed.

Lemma strict_eq_eqv (a b : number) : strict_eq a b = true -> (a =~ b)%js.
Proof.
  destruct a, b; simpl; try discriminate; auto. apply Qeq_bool_eq.
Qed.

(** X9: the memo comparison never keeps a stale picture.  When
    [MagnifiedViewContent]'s comparison finds the previous and the next
    props equal, rendering the next props gives the same stage and the same
    pattern-filled rectangle as rendering the previous ones. *)
Theorem memo_keeps_only_identical_renderings
    (prevProps nextProps : MagnifiedViewContentProps) :
  MagnifiedViewContent_areEqual prevProps nextProps = true ->
  same_rendering (MagnifiedViewContent prevProps) (MagnifiedViewContent nextProps).
Proof.
  unfold MagnifiedViewContent_areEqual. intros H.
  repeat (apply andb_prop in H; destruct H as [H ?]).
  apply Nat.eqb_eq in H.
  unfold same_rendering, MagnifiedViewContent. cbn.
  repeat split; auto using strict_eq_eqv.
Qed.

Lemma memo_keeps_only_identical_renderings_witness :
  let params sw :=
    {| x := Fin (1 # 2); y := Fin 3; scaleX := Fin 0.5; scaleY := Fin 0.5;
       sourceWidth := Fin sw; sourceHeight := Fin 800;
       centerX := Fin 400; centerY := Fin 403 |} in
  let prevProps := {| mvc_image := 1%nat; mvc_params := params 800;
                      mvc_width := Fin 400; mvc_height := Fin 400 |} in
  let nextProps := {| mvc_image := 1%nat; mvc_params := params 801;
                      mvc_width := Fin 400; mvc_height := Fin 400 |} in
  same_rendering (MagnifiedViewContent prevProps) (MagnifiedViewContent nextProps).
Proof.
  intros params prevProps nextProps.
  apply (memo_keeps_only_identical_renderings prevProps nextProps).
  reflexivity.
Defined.

(** ** The stage size *)

Lemma zeroTo_positive (d q : Q) : 0 < d -> 0 <= q -> 0 < zeroTo d q.
Proof.
  intros Hd Hq. unfold zeroTo. destruct (Qeq_bool q 0) eqn:E; [exact Hd|].
  apply Qeq_bool_neq in E. lra.
Qed.

(** The stage [updateDimensions] computes from finite values, in closed
    form. *)
Lemma updateDimensions_closed_form (cw iw ih : Q) (old : Dimensions) :
  updateDimensions (Some {| offsetWidth := Fin cw |})
    (Some {| dwidth := Fin iw; dheight := Fin ih |}) old
  = {| dwidth := Fin (zeroTo 400 cw);
       dheight :=
         Fin (zeroTo 300
                (inject_Z (Qfloor (zeroTo 400 cw * zeroTo 400 ih / zeroTo 600 iw)))) |}.
Proof.
  unfold updateDimensions. cbn [offsetWidth dwidth dheight].
  rewrite !or_else_zeroTo. cbn [mul].
  rewrite div_fin by (apply zeroTo_nonzero; intro H; inversion H).
  cbn [floor]. rewrite or_else_zeroTo. reflexivity.
Qed.

(** X10: the resize recomputation never stores a zero, infinite or NaN
    size.  From any finite container width and image dimensions (zero
    included) the new stage has a finite non-zero width and height, so the
    transform's own stage defaults and the height-to-width ratio of
    [MainImageView] never meet a zero. *)
Theorem updateDimensions_never_stores_zero (cw iw ih : Q) (old : Dimensions) :
  let stage := updateDimensions (Some {| offsetWidth := Fin cw |})
                 (Some {| dwidth := Fin iw; dheight := Fin ih |}) old in
  nonzero (dwidth stage) /\ nonzero (dheight stage).
Proof.
  cbv zeta. rewrite updateDimensions_closed_form. cbn [dwidth dheight nonzero].
  split; apply zeroTo_nonzero; intro H; inversion H.
Qed.

(** From sizes that are not negative the new stage is positive. *)
Lemma updateDimensions_positive (cw iw ih : Q) (old : Dimensions) :
  0 <= cw -> 0 <= iw -> 0 <= ih ->
  let stage := updateDimensions (Some {| offsetWidth := Fin cw |})
                 (Some {| dwidth := Fin iw; dheight := Fin ih |}) old in
  positive (dwidth stage) /\ positive (dheight stage).
Proof.
  intros Hcw Hiw Hih. cbv zeta. rewrite updateDimensions_closed_form.
  cbn [dwidth dheight positive].
  assert (P400 : 0 < 400) by reflexivity.
  assert (P600 : 0 < 600) by reflexivity.
  assert (P300 : 0 < 300) by reflexivity.
  pose proof (zeroTo_positive 400 cw P400 Hcw) as Pcw.
  pose proof (zeroTo_positive 400 ih P400 Hih) as Pih.
  pose proof (zeroTo_positive 600 iw P600 Hiw) as Piw.
  split; [exact Pcw|].
  apply zeroTo_positive; [exact P300|].
  assert (Hq : 0 < zeroTo 400 cw * zeroTo 400 ih / zeroTo 600 iw)
    by (apply Qdiv_pos; [apply Qmult_lt_0_compat|]; assumption).
  assert (Hfl : (0 <= Qfloor (zeroTo 400 cw * zeroTo 400 ih / zeroTo 600 iw))%Z).
  { rewrite <- (Qfloor_Z 0). apply Qfloor_resp_le. unfold inject_Z. lra. }
  rewrite Zle_Qle in Hfl. exact Hfl.
Qed.

(** ** The image loader *)

Lemma or_else_truthy (a d : number) : truthy d = true -> truthy (a || d)%js = true.
Proof. intros Hd. unfold or_else. destruct (truthy a) eqn:E; assumption. Qed.

Lemma ImageLoader_run_step (e : ImageLoader.Event) (events : list ImageLoader.Event)
    (s : ImageLoader.State) :
  ImageLoader.run (e :: events) s = ImageLoader.run events (ImageLoader.step s e).
Proof. reflexivity. Qed.

(** X11: the loader hands out an image and its dimensions together, and
    never a zero or NaN dimension.  After any sequence of effects, load
    and error events and unmounts, [dimensions] is set exactly when [image]
    is, and a set width and height are truthy (a zero natural size is
    replaced by 600 or 400). *)
Theorem loader_image_and_dimensions_together (events : list ImageLoader.Event) :
  let s := ImageLoader.run events ImageLoader.initial in
  isSome (ImageLoader.image s) = isSome (ImageLoader.dimensions s)
  /\ ImageLoader.truthyDimensions (ImageLoader.dimensions s) = true.
Proof.
  cbv zeta.
  assert (Hinv : forall s,
    isSome (ImageLoader.image s) = isSome (ImageLoader.dimensions s)
    /\ ImageLoader.truthyDimensions (ImageLoader.dimensions s) = true ->
    isSome (ImageLoader.image (ImageLoader.run events s))
    = isSome (ImageLoader.dimensions (ImageLoader.run events s))
    /\ ImageLoader.truthyDimensions
         (ImageLoader.dimensions (ImageLoader.run events s)) = true).
  { induction events as [|e events IH]; intros s Hs; [exact Hs|].
    rewrite ImageLoader_run_step. apply IH.
    destruct s as [im ld er dm ls tc]. cbn in Hs.
    destruct e as [url img | img nw nh | img | ]; cbn.
    - unfold ImageLoader.run_effect, ImageLoader.cleanup.
      destruct tc, (String.eqb url ""); exact Hs.
    - unfold ImageLoader.handlers_set. cbn.
      destruct (existsb (Nat.eqb img) ls); [|exact Hs].
      cbn. split; [reflexivity|].
      rewrite !or_else_truthy by reflexivity. reflexivity.
    - unfold ImageLoader.handlers_set. cbn.
      destruct (existsb (Nat.eqb img) ls); exact Hs.
    - unfold ImageLoader.cleanup. destruct tc; exact Hs. }
  apply Hinv. split; reflexivity.
Qed.

(** Completions that find their handlers removed, or set for another
    image, change nothing. *)
Lemma stale_completions_change_nothing
    (s : ImageLoader.State) (events : list ImageLoader.Event) :
  forallb (stale s) events = true ->
  ImageLoader.run events s = s.
Proof.
  induction events as [|e events IH]; intros H; [reflexivity|].
  cbn [forallb] in H. apply andb_prop in H. destruct H as [He Hrest].
  rewrite ImageLoader_run_step.
  assert (Hstep : ImageLoader.step s e = s).
  { destruct e as [url img | img nw nh | img | ]; cbn in He; try discriminate;
      cbn [ImageLoader.step];
      destruct (ImageLoader.handlers_set img s); try discriminate; reflexivity. }
  rewrite Hstep. apply IH. exact Hrest.
Qed.

(** At most the image of the pending cleanup has its handlers set. *)
Lemma handlers_belong_to_the_effect (events : list ImageLoader.Event) :
  attached (ImageLoader.run events ImageLoader.initial).
Proof.
  assert (Hinv : forall s, attached s -> attached (ImageLoader.run events s)).
  { induction events as [|e events IH]; intros s Hs; [exact Hs|].
    rewrite ImageLoader_run_step. apply IH.
    destruct s as [im ld er dm ls tc]. unfold attached in *.
    cbn [ImageLoader.listening ImageLoader.to_clean] in Hs. subst ls.
    destruct e as [url img | img nw nh | img | ];
      cbn [ImageLoader.step];
      unfold ImageLoader.run_effect, ImageLoader.cleanup, ImageLoader.handlers_set,
        ImageLoader.onload, ImageLoader.onerror;
      cbn [ImageLoader.listening ImageLoader.to_clean];
      destruct tc as [i|];
      cbn [ImageLoader.listening ImageLoader.to_clean ImageLoader.image
           ImageLoader.loading ImageLoader.error ImageLoader.dimensions
           remove existsb orb];
      try destruct (Nat.eq_dec i i) as [_|Hne]; try contradiction;
      try destruct (String.eqb url "");
      try destruct (Nat.eqb img i);
      reflexivity. }
  apply Hinv. reflexivity.
Qed.

(** After the unmount cleanup no image has its handlers set. *)
Lemma unmount_detaches (s : ImageLoader.State) (e : ImageLoader.Event) :
  attached s ->
  ImageLoader.completion e = true ->
  stale (ImageLoader.step s ImageLoader.unmount) e = true.
Proof.
  destruct s as [im ld er dm ls tc]. unfold attached.
  cbn [ImageLoader.listening ImageLoader.to_clean]. intros -> H.
  destruct e as [url i | i nw nh | i | ]; try discriminate H;
    cbn [ImageLoader.step stale];
    unfold ImageLoader.cleanup, ImageLoader.handlers_set;
    destruct tc as [c|];
    cbn [ImageLoader.listening ImageLoader.to_clean remove existsb];
    try destruct (Nat.eq_dec c c) as [_|Hne]; try contradiction;
    reflexivity.
Qed.

(** After the effect has run for a new URL, only the image it created may
    have its handlers set. *)
Lemma effect_detaches (s : ImageLoader.State) (imageUrl : string)
    (img : ImageHandle) (e : ImageLoader.Event) :
  attached s ->
  completion_of_other img e = true ->
  stale (ImageLoader.step s (ImageLoader.effect imageUrl img)) e = true.
Proof.
  destruct s as [im ld er dm ls tc]. unfold attached.
  cbn [ImageLoader.listening ImageLoader.to_clean]. intros -> H.
  destruct e as [url i | i nw nh | i | ]; try discriminate H;
    cbn [ImageLoader.step stale completion_of_other] in *;
    unfold ImageLoader.run_effect, ImageLoader.cleanup, ImageLoader.handlers_set;
    destruct tc as [c|];
    cbn [ImageLoader.listening ImageLoader.to_clean remove];
    try destruct (Nat.eq_dec c c) as [_|Hne]; try contradiction;
    destruct (String.eqb imageUrl "");
    cbn [ImageLoader.listening existsb orb];
    rewrite ?orb_false_r; try reflexivity; exact H.
Qed.

(** X12: a completion that arrives late is ignored.  Whatever has
    happened to the loader since it was mounted: once the component is
    unmounted no load or error event changes the state any more; and once
    the effect has run again for a new URL, creating the image [img], the
    load and error events of every other image object (the superseded one
    in particular) leave the state as the effect left it.  The cleanup
    the previous run of the effect returned has taken their handlers
    away. *)
Theorem late_completions_are_ignored
    (history : list ImageLoader.Event) (imageUrl : string) (img : ImageHandle)
    (after_unmount after_effect : list ImageLoader.Event) :
  forallb ImageLoader.completion after_unmount = true ->
  forallb (completion_of_other img) after_effect = true ->
  let s := ImageLoader.run history ImageLoader.initial in
  ImageLoader.run after_unmount (ImageLoader.step s ImageLoader.unmount)
  = ImageLoader.step s ImageLoader.unmount
  /\ ImageLoader.run after_effect
       (ImageLoader.step s (ImageLoader.effect imageUrl img))
     = ImageLoader.step s (ImageLoader.effect imageUrl img).
Proof.
  intros Hu He s.
  pose proof (handlers_belong_to_the_effect history) as Hs. fold s in Hs.
  split; apply stale_completions_change_nothing.
  - apply forallb_forall. intros e Hin. apply unmount_detaches; [exact Hs|].
    rewrite forallb_forall in Hu. apply Hu. exact Hin.
  - apply forallb_forall. intros e Hin. apply effect_detaches; [exact Hs|].
    rewrite forallb_forall in He. apply He. exact Hin.
Qed.

Lemma late_completions_are_ignored_witness :
  let late := [ImageLoader.load 1%nat (Fin 3000) (Fin 2000);
               ImageLoader.fail 1%nat] in
  let s := ImageLoader.run [ImageLoader.effect "/images/a.jpg" 1%nat]
             ImageLoader.initial in
  ImageLoader.run late (ImageLoader.step s ImageLoader.unmount)
  = ImageLoader.step s ImageLoader.unmount
  /\ ImageLoader.run late
       (ImageLoader.step s (ImageLoader.effect "/images/b.jpg" 2%nat))
     = ImageLoader.step s (ImageLoader.effect "/images/b.jpg" 2%nat).
Proof.
  intros late.
  apply (late_completions_are_ignored
           [ImageLoader.effect "/images/a.jpg" 1%nat] "/images/b.jpg" 2%nat
           late late);
    reflexivity.
Defined.

(** X13: the loader's flags only go one way.  Once [loading] is false it
    stays false, and once an error is recorded an error stays recorded,
    whatever is loaded afterwards: a new URL does not bring back the
    loading state, and a later successful load does not clear the error. *)
Theorem loader_flags_are_sticky
    (s : ImageLoader.State) (events : list ImageLoader.Event) :
  (ImageLoader.loading s = false ->
   ImageLoader.loading (ImageLoader.run events s) = false)
  /\ (isSome (ImageLoader.error s) = true ->
      isSome (ImageLoader.error (ImageLoader.run events s)) = true).
Proof.
  revert s. induction events as [|e events IH]; intros s; [split; auto|].
  rewrite ImageLoader_run_step.
  destruct (IH (ImageLoader.step s e)) as [IHl IHe].
  split; intros H; [apply IHl | apply IHe];
    destruct s as [im ld er dm ls tc]; cbn in H;
    destruct e as [url img | img nw nh | img | ]; cbn;
    unfold ImageLoader.run_effect, ImageLoader.handlers_set, ImageLoader.cleanup;
    cbn;
    try destruct tc; try destruct (String.eqb url "");
    try destruct (existsb (Nat.eqb img) ls); cbn; auto; discriminate.
Qed.

(** ** The page component *)

Lemma Home_run_step (e : Home.Event) (events : list Home.Event) (s : Home.State) :
  Home.run (e :: events) s = Home.run events (Home.step s e).
Proof. reflexivity. Qed.

Lemma same_value_fin (a b : Q) : same_value (Fin a) (Fin b) = true -> a == b.
Proof. cbn. apply Qeq_bool_eq. Qed.

Lemma size_value_fin (a : number) : Home.size_value a -> exists q, a = Fin q /\ 0 <= q.
Proof. destruct a; simpl; try contradiction. eauto. Qed.

Lemma centre_on_stage (w h : Q) :
  0 < w -> 0 < h ->
  Home.on_stage {| px := (Fin w / Fin 2)%js; py := (Fin h / Fin 2)%js |}
    {| dwidth := Fin w; dheight := Fin h |}.
Proof.
  intros Hw Hh. rewrite !div_fin by lra.
  assert (Ew : w / 2 == w * (1 # 2)) by reflexivity.
  assert (Eh : h / 2 == h * (1 # 2)) by reflexivity.
  unfold Home.on_stage. cbn. repeat split; lra.
Qed.

Lemma resize_keeps_invariant (container : HTMLDivElement) (s : Home.State) :
  isSome (Home.image1 s) = true ->
  Home.size_value (offsetWidth container) ->
  Home_invariant s -> Home_invariant (Home.resize container s).
Proof.
  destruct s as [im dims [bw bh] pos lens rect].
  destruct container as [ow].
  cbn [Home.image1 offsetWidth]. intros Him How (Hdims & (Hbw & Hbh) & Hpos).
  cbn in Hdims, Hbw, Hbh, Hpos.
  destruct im as [img|]; [|discriminate Him].
  destruct (size_value_fin _ How) as (cw & -> & Hcw).
  destruct (positive_fin _ Hbw) as (qbw & -> & Pbw).
  destruct (positive_fin _ Hbh) as (qbh & -> & Pbh).
  unfold Home.resize.
  cbn [Home.stageDimensions Home.imageDimensions Home.set_stageDimensions
       Home.image1 Home.magnifierPosition Home.showLens Home.showRectangle].
  destruct dims as [[iw ih]|].
  - destruct Hdims as [Hiw Hih]. cbn in Hiw, Hih.
    destruct (positive_fin _ Hiw) as (qiw & -> & Piw).
    destruct (positive_fin _ Hih) as (qih & -> & Pih).
    assert (Hpos' := updateDimensions_positive cw qiw qih
                       {| dwidth := Fin qbw; dheight := Fin qbh |}
                       Hcw (Qlt_le_weak _ _ Piw) (Qlt_le_weak _ _ Pih)).
    cbv zeta in Hpos'. rewrite updateDimensions_closed_form in *.
    cbn [dwidth dheight] in *. destruct Hpos' as [Paw Pah].
    cbn [positive] in Paw, Pah.
    set (aw := zeroTo 400 cw) in *.
    set (ah := zeroTo 300 _) in *.
    clearbody aw ah.
    match goal with
    | |- context [if ?c then _ else _] => destruct c eqn:Esame
    end.
    + apply andb_prop in Esame. destruct Esame as [Ew Eh].
      apply same_value_fin in Ew. apply same_value_fin in Eh.
      unfold Home_invariant. cbn. repeat split; try assumption.
      all: destruct pos as [[qx| | |] [qy| | |]];
        unfold Home.on_stage in Hpos; cbn in Hpos; try tauto.
      all: cbn; lra.
    + unfold Home.centre_effect. cbn.
      unfold Home_invariant. cbn [Home.imageDimensions Home.stageDimensions
                                 Home.magnifierPosition dwidth dheight positive].
      split; [split; assumption|]. split; [split; assumption|].
      apply centre_on_stage; assumption.
  - cbn [updateDimensions].
    assert (Esame : same_value (Fin qbw) (Fin qbw) && same_value (Fin qbh) (Fin qbh)
                    = true).
    { cbn. rewrite !Qeq_bool_refl. reflexivity. }
    cbn [dwidth dheight]. rewrite Esame.
    unfold Home_invariant. cbn. repeat split; try assumption; apply Hpos.
Qed.

Lemma step_keeps_invariant (s : Home.State) (e : Home.Event) :
  Home.deliverable s e -> Home_invariant s -> Home_invariant (Home.step s e).
Proof.
  intros Hd Hinv.
  destruct e as [img nw nh container | container | p | p | p]; cbn [Home.step].
  - destruct Hd as (Hnw & Hnh & How).
    unfold Home.image_loaded. apply resize_keeps_invariant; [| exact How |].
    + unfold Home.centre_effect. reflexivity.
    + destruct s as [im dims [bw bh] pos lens rect].
      destruct Hinv as (_ & (Hbw & Hbh) & _). cbn in Hbw, Hbh.
      destruct (positive_fin _ Hbw) as (qbw & -> & Pbw).
      destruct (positive_fin _ Hbh) as (qbh & -> & Pbh).
      destruct (size_value_fin _ Hnw) as (qnw & -> & Pnw).
      destruct (size_value_fin _ Hnh) as (qnh & -> & Pnh).
      unfold Home.centre_effect, Home_invariant.
      cbn [Home.image1 Home.set_magnifierPosition Home.imageDimensions
           Home.stageDimensions Home.magnifierPosition dwidth dheight].
      rewrite !or_else_zeroTo. cbn [positive].
      split; [split; apply zeroTo_positive; (reflexivity || assumption)|].
      split; [split; assumption|].
      apply centre_on_stage; assumption.
  - destruct (Home.image1 s) eqn:Eim; [|exact Hinv].
    apply resize_keeps_invariant; [rewrite Eim; reflexivity | exact Hd | exact Hinv].
  - unfold Home.handleMouseMove. destruct (negb (Home.showLens s)); [exact Hinv|].
    destruct p as [p|]; [|exact Hinv].
    destruct Hinv as (Hdims & Hstage & _). cbn in Hd.
    destruct s. repeat split; try apply Hdims; try apply Hstage; apply Hd.
  - unfold Home.handleTouchMove. destruct (negb (Home.showLens s)); [exact Hinv|].
    destruct p as [p|]; [|exact Hinv].
    destruct Hinv as (Hdims & Hstage & _). cbn in Hd.
    destruct s. repeat split; try apply Hdims; try apply Hstage; apply Hd.
  - unfold Home.handleClickOrTouch. destruct p as [p|]; [|exact Hinv].
    destruct Hinv as (Hdims & Hstage & _). cbn in Hd.
    destruct s. repeat split; try apply Hdims; try apply Hstage; apply Hd.
Qed.

(** X14: the magnifier never leaves the stage.  Starting from the page's
    first state, as long as the browser reports sizes that are not
    negative and pointer positions on the stage as displayed, after every
    load, resize, move and click the stage has a positive width and height
    and the magnifier position lies on it. *)
Theorem magnifier_stays_on_stage (events : list Home.Event) :
  Home.deliverable_trace Home.initial events ->
  let s := Home.run events Home.initial in
  (positive (dwidth (Home.stageDimensions s))
   /\ positive (dheight (Home.stageDimensions s)))
  /\ Home.on_stage (Home.magnifierPosition s) (Home.stageDimensions s).
Proof.
  intros Htrace. cbv zeta.
  assert (Hgen : forall s, Home_invariant s -> Home.deliverable_trace s events ->
                           Home_invariant (Home.run events s)).
  { clear Htrace. induction events as [|e events IH]; intros s Hinv Ht;
      [exact Hinv|].
    destruct Ht as [He Hrest]. rewrite Home_run_step.
    apply IH; [apply step_keeps_invariant; assumption | exact Hrest]. }
  assert (Hinit : Home_invariant Home.initial).
  { unfold Home_invariant, Home.on_stage. cbn. repeat split; discriminate. }
  destruct (Hgen Home.initial Hinit Htrace) as (_ & Hstage & Hpos).
  split; assumption.
Qed.

Lemma magnifier_stays_on_stage_witness :
  let s := Home.run
             [Home.loaded 1%nat (Fin 3000) (Fin 2000) {| offsetWidth := Fin 600 |};
              Home.click (Some {| px := Fin 100; py := Fin 50 |});
              Home.mouse_move (Some {| px := Fin 600; py := Fin 400 |});
              Home.resized {| offsetWidth := Fin 320 |};
              Home.mouse_move None]
             Home.initial in
  (positive (dwidth (Home.stageDimensions s))
   /\ positive (dheight (Home.stageDimensions s)))
  /\ Home.on_stage (Home.magnifierPosition s) (Home.stageDimensions s).
Proof.
  apply (magnifier_stays_on_stage
           [Home.loaded 1%nat (Fin 3000) (Fin 2000) {| offsetWidth := Fin 600 |};
            Home.click (Some {| px := Fin 100; py := Fin 50 |});
            Home.mouse_move (Some {| px := Fin 600; py := Fin 400 |});
            Home.resized {| offsetWidth := Fin 320 |};
            Home.mouse_move None]).
  vm_compute. repeat split; discriminate.
Defined.

(** X15: the lens is never shown without the rectangle.  After any
    sequence of loads, resizes, moves and clicks from the page's first
    state, if the magnified view is showing ([showLens]) then the red
    rectangle is drawn on the main image ([showRectangle]). *)
Theorem lens_shown_only_with_rectangle (events : list Home.Event) :
  Home.showLens (Home.run events Home.initial) = true ->
  Home.showRectangle (Home.run events Home.initial) = true.
Proof.
  assert (Hgen : forall s,
            (Home.showLens s = true -> Home.showRectangle s = true) ->
            Home.showLens (Home.run events s) = true ->
            Home.showRectangle (Home.run events s) = true).
  { induction events as [|e events IH]; intros s Hs; [exact Hs|].
    rewrite Home_run_step. apply IH.
    destruct s as [im dims stage pos lens rect]. cbn in Hs.
    destruct e as [img nw nh container | container | p | p | p];
      cbn [Home.step].
    - unfold Home.image_loaded, Home.resize, Home.centre_effect. cbn.
      match goal with
      | |- context [if ?c then _ else _] => destruct c
      end; cbn; exact Hs.
    - destruct im as [img|]; cbn; [|exact Hs].
      unfold Home.resize, Home.centre_effect. cbn.
      match goal with
      | |- context [if ?c then _ else _] => destruct c
      end; cbn; exact Hs.
    - unfold Home.handleMouseMove. cbn.
      destruct (negb lens); [exact Hs|]. destruct p; exact Hs.
    - unfold Home.handleTouchMove. cbn.
      destruct (negb lens); [exact Hs|]. destruct p; exact Hs.
    - unfold Home.handleClickOrTouch. destruct p; cbn; [reflexivity | exact Hs]. }
  apply Hgen. cbn. discriminate.
Qed.

Lemma lens_shown_only_with_rectangle_witness :
  Home.showRectangle
    (Home.run [Home.click (Some {| px := Fin 100; py := Fin 50 |});
               Home.click (Some {| px := Fin 10; py := Fin 5 |});
               Home.click (Some {| px := Fin 20; py := Fin 5 |})]
       Home.initial) = true.
Proof.
  apply (lens_shown_only_with_rectangle
           [Home.click (Some {| px := Fin 100; py := Fin 50 |});
            Home.click (Some {| px := Fin 10; py := Fin 5 |});
            Home.click (Some {| px := Fin 20; py := Fin 5 |})]).
  reflexivity.
Defined.

(** ** The AR page: what a teardown releases *)

Lemma endARSession_calls_and_body (w : World) :
  calls (browser (snd (endARSession w))) = calls (browser w) ++ releases w
  /\ body (browser (snd (endARSession w)))
     = match canvasRef (refs w) with
       | Some c => if existsb (Nat.eqb c) (body (browser w))
                   then remove Nat.eq_dec c (body (browser w))
                   else body (browser w)
       | None => body (browser w)
       end.
Proof.
  destruct w as [[s f c ht] a cl [b con n l cs ov]].
  unfold releases.
  teardown_cases s f c ht b E;
    rewrite <- ?app_assoc, ?app_nil_r; split; reflexivity.
Qed.

(** X16: a teardown releases each resource it holds once, in a fixed
    order, and nothing else.  The platform calls [endARSession] makes are,
    in this order, [session.end()] if a session is held,
    [cancelAnimationFrame] if a frame id is held, [removeChild] if the
    held canvas is in the document, and [cancel()] if a hit-test source is
    held. *)
Theorem endARSession_releases_what_is_held (w : World) :
  calls (browser (snd (endARSession w))) = calls (browser w) ++ releases w.
Proof. apply endARSession_calls_and_body. Qed.

(** ** The AR page: launches *)

Lemma all_steps_succeed_inv (platform : Platform) :
  all_steps_succeed platform = true ->
  exists session canvas source,
    platform = {| getUserMedia := true;
                  requestSession := Some session;
                  createElement_canvas := canvas;
                  getContext := Some tt;
                  makeXRCompatible := true;
                  new_XRWebGLLayer := true;
                  updateRenderState := true;
                  new_WebGLRenderer := true;
                  requestReferenceSpace_local := true;
                  requestReferenceSpace_viewer := true;
                  requestHitTestSource := Some source |}.
Proof.
  destruct platform as [gum [session|] cv [[]|] mx nl urs nr l v [source|]];
    unfold all_steps_succeed; cbn;
    destruct gum, mx, nl, urs, nr, l, v; cbn; try discriminate.
  intros _. exists session, cv, source. reflexivity.
Qed.

(** The world a successful set-up leaves. *)
Lemma launchAR_success (platform : Platform) (size : Size) (w : World) :
  all_steps_succeed platform = true ->
  let w' := snd (launchAR true platform size w) in
  refs w' = {| xrSessionRef := requestSession platform;
               frameRef := frameRef (refs w);
               canvasRef := Some (createElement_canvas platform);
               hitTestSourceRef :=
                 match requestHitTestSource platform with
                 | Some source => Source source
                 | None => Null
                 end |}
  /\ arSessionActive w' = true
  /\ body (browser w')
     = remove Nat.eq_dec (createElement_canvas platform) (body (browser w))
       ++ [createElement_canvas platform]
  /\ calls (browser w') = calls (browser w).
Proof.
  intros Hok.
  destruct (all_steps_succeed_inv platform Hok) as (session & cv & source & ->).
  destruct w as [[s f c ht] a cl [b con n ls cs ov]].
  unfold launchAR, try_catch. run_launch. cbn [negb].
  repeat split; reflexivity.
Qed.

(** The canvas in the world a failed set-up throws in: nothing has changed
    yet, or the new canvas is appended and held. *)
Lemma launchAR_try_canvas (platform : Platform) (size : Size) (w : World) :
  all_steps_succeed platform = false ->
  let w1 := snd (launchAR_try platform size w) in
  (canvasRef (refs w1) = canvasRef (refs w)
   /\ body (browser w1) = body (browser w))
  \/ (canvasRef (refs w1) = Some (createElement_canvas platform)
      /\ body (browser w1)
         = remove Nat.eq_dec (createElement_canvas platform) (body (browser w))
           ++ [createElement_canvas platform]).
Proof.
  destruct platform as [gum rs cv gc mx nl urs nr l v hts].
  destruct w as [[s f c ht] a cl [b con n ls cs ov]].
  unfold all_steps_succeed.
  destruct gum; [|intros _; run_launch; left; split; reflexivity].
  destruct rs as [session|]; [|intros _; run_launch; left; split; reflexivity].
  destruct gc as [[]|]; [|intros _; run_launch; right; split; reflexivity].
  destruct mx; [|intros _; run_launch; right; split; reflexivity].
  destruct nl; [|intros _; run_launch; right; split; reflexivity].
  destruct urs; [|intros _; run_launch; right; split; reflexivity].
  destruct nr; [|intros _; run_launch; right; split; reflexivity].
  destruct l; [|intros _; run_launch; right; split; reflexivity].
  destruct v; [|intros _; run_launch; right; split; reflexivity].
  destruct hts as [source|]; [|intros _; run_launch; right; split; reflexivity].
  cbn. discriminate.
Qed.

Lemma remove_appended (c : nat) (l : list nat) :
  ~ In c l -> remove Nat.eq_dec c (remove Nat.eq_dec c l ++ [c]) = l.
Proof.
  intros Hnot. rewrite (notin_remove Nat.eq_dec l c Hnot).
  rewrite remove_app, (notin_remove Nat.eq_dec l c Hnot).
  cbn. destruct (Nat.eq_dec c c) as [_|Hne]; [|contradiction].
  apply app_nil_r.
Qed.

(** [launchAR] when AR is supported, as the [try] block followed, on a
    throw, by the [catch] block. *)
Lemma launchAR_unfold (platform : Platform) (size : Size) (w : World) :
  let w0 := snd (logDebug "→ launchAR()" w) in
  launchAR true platform size w
  = match launchAR_try platform size w0 with
    | (Returned a, w1) => (Returned a, w1)
    | (Thrown e, w1) => endARSession (snd (logDebug "❌ launchAR error" w1))
    end.
Proof. reflexivity. Qed.

(** Teardown removes no diagnostic overlay. *)
Lemma endARSession_keeps_overlays (w : World) :
  overlays (browser (snd (endARSession w))) = overlays (browser w).
Proof.
  destruct w as [[s f c ht] a cl [b con n l cs ov]].
  teardown_cases s f c ht b E; reflexivity.
Qed.

(** The set-up appends its diagnostic overlay once the session is
    granted, whatever happens afterwards. *)
Lemma launchAR_try_overlays (platform : Platform) (size : Size) (w : World) :
  overlays (browser (snd (launchAR_try platform size w)))
  = if getUserMedia platform && isSome (requestSession platform)
    then S (overlays (browser w))
    else overlays (browser w).
Proof.
  destruct platform as [gum rs cv gc mx nl urs nr l v hts].
  destruct w as [[s f c ht] a cl [b con n ls cs ov]].
  destruct gum; [|run_launch; reflexivity].
  destruct rs as [session|]; [|run_launch; reflexivity].
  destruct gc as [[]|]; [|run_launch; reflexivity].
  destruct mx; [|run_launch; reflexivity].
  destruct nl; [|run_launch; reflexivity].
  destruct urs; [|run_launch; reflexivity].
  destruct nr; [|run_launch; reflexivity].
  destruct l; [|run_launch; reflexivity].
  destruct v; [|run_launch; reflexivity].
  destruct hts as [source|]; run_launch; reflexivity.
Qed.

(** X17: a failed launch leaves no canvas behind, but it leaves its
    diagnostic overlay.  When no canvas is held before the launch and a
    step of the set-up fails, the canvases among the children of
    [document.body] are after [launchAR] those there were before (the
    canvas the launch may have appended has been removed again), while
    the diagnostic [div], appended as soon as the session is granted, is
    still a child of [document.body]: teardown does not remove it. *)
Theorem failed_launch_leaves_overlay_but_no_canvas
    (platform : Platform) (size : Size) (w : World) :
  canvasRef (refs w) = None ->
  ~ In (createElement_canvas platform) (body (browser w)) ->
  all_steps_succeed platform = false ->
  let w' := snd (launchAR true platform size w) in
  body (browser w') = body (browser w)
  /\ overlays (browser w')
     = if getUserMedia platform && isSome (requestSession platform)
       then S (overlays (browser w))
       else overlays (browser w).
Proof.
  intros Hnone Hfresh Hfail. cbv zeta.
  rewrite launchAR_unfold. cbv zeta.
  set (w0 := snd (logDebug "→ launchAR()" w)).
  pose proof (launchAR_try_outcome platform size w0) as Hout.
  pose proof (launchAR_try_canvas platform size w0 Hfail) as Hcanvas.
  pose proof (launchAR_try_overlays platform size w0) as Hov.
  rewrite Hfail in Hout. destruct Hout as [[e He] _].
  destruct (launchAR_try platform size w0) as [o w1].
  cbn [fst snd] in *. subst o.
  split.
  - destruct (endARSession_calls_and_body (snd (logDebug "❌ launchAR error" w1)))
      as [_ Hbody].
    rewrite Hbody. rewrite logDebug_run.
    cbn [snd refs browser with_browser body set_console].
    destruct Hcanvas as [[Hc Hb]|[Hc Hb]]; rewrite Hc, Hb.
    + unfold w0. rewrite logDebug_run.
      cbn [snd refs browser with_browser body set_console].
      rewrite Hnone. reflexivity.
    + unfold w0. rewrite logDebug_run.
      cbn [snd browser with_browser body set_console].
      assert (Hin : existsb (Nat.eqb (createElement_canvas platform))
                      (remove Nat.eq_dec (createElement_canvas platform)
                         (body (browser w)) ++ [createElement_canvas platform])
                    = true).
      { apply existsb_eqb_In. apply in_or_app. right. left. reflexivity. }
      rewrite Hin. apply remove_appended. exact Hfresh.
  - rewrite endARSession_keeps_overlays, logDebug_run.
    cbn [snd browser with_browser overlays set_console].
    rewrite Hov. reflexivity.
Qed.

Lemma failed_launch_leaves_overlay_but_no_canvas_witness :
  let w' := snd (launchAR true refusing_platform print_8x10 AR.initial) in
  body (browser w') = body (browser AR.initial)
  /\ overlays (browser w')
     = if getUserMedia refusing_platform && isSome (requestSession refusing_platform)
       then S (overlays (browser AR.initial))
       else overlays (browser AR.initial).
Proof.
  apply (failed_launch_leaves_overlay_but_no_canvas refusing_platform print_8x10
           AR.initial).
  - reflexivity.
  - intros H. exact H.
  - reflexivity.
Defined.

(** X18: a launch followed by a teardown gives back everything but the
    diagnostic overlay.  From a world that holds no handle, a successful
    [launchAR] and then [endARSession] end with the canvases of
    [document.body] as they were, no handle held, the session flagged
    inactive, and exactly three release calls made (the session ended,
    the canvas removed, the hit-test source cancelled); the diagnostic
    [div] the launch appended is still a child of [document.body]. *)
Theorem launch_then_teardown_leaves_the_overlay
    (platform : Platform) (size : Size) (w : World)
    (session : XRSession) (source : XRHitTestSource) :
  handles_released w ->
  ~ In (createElement_canvas platform) (body (browser w)) ->
  all_steps_succeed platform = true ->
  requestSession platform = Some session ->
  requestHitTestSource platform = Some source ->
  let w2 := snd (endARSession (snd (launchAR true platform size w))) in
  body (browser w2) = body (browser w)
  /\ overlays (browser w2) = S (overlays (browser w))
  /\ calls (browser w2)
     = calls (browser w)
       ++ [session_end session; removeChild (createElement_canvas platform);
           hitTestSource_cancel source]
  /\ handles_released w2
  /\ arSessionActive w2 = false.
Proof.
  intros (_ & Hframe & _ & _) Hfresh Hok Hsession Hsource. cbv zeta.
  destruct (launchAR_success platform size w Hok) as (Hrefs & _ & Hbody & Hcalls).
  cbv zeta in Hrefs, Hbody, Hcalls.
  assert (Hov : overlays (browser (snd (launchAR true platform size w)))
                = S (overlays (browser w))).
  { rewrite launchAR_unfold. cbv zeta.
    pose proof (launchAR_try_outcome platform size (snd (logDebug "→ launchAR()" w)))
      as Hout.
    pose proof (launchAR_try_overlays platform size (snd (logDebug "→ launchAR()" w)))
      as Hov.
    rewrite Hok in Hout. destruct Hout as (Hret & _ & _).
    destruct (launchAR_try platform size (snd (logDebug "→ launchAR()" w)))
      as [o w1].
    cbn [fst snd] in *. subst o. cbn [snd]. rewrite Hov.
    destruct (all_steps_succeed_inv platform Hok) as (s0 & cv & src & ->).
    reflexivity. }
  set (w1 := snd (launchAR true platform size w)) in *.
  assert (Hin : existsb (Nat.eqb (createElement_canvas platform)) (body (browser w1))
                = true).
  { rewrite Hbody. apply existsb_eqb_In. apply in_or_app. right. left. reflexivity. }
  destruct (endARSession_calls_and_body w1) as [Hc Hb].
  pose proof (endARSession_effect w1) as (Hs & Hf & Hh & Ha & _ & _ & Hcv).
  rewrite Hc, Hb, endARSession_keeps_overlays, Hov. unfold releases. rewrite Hrefs.
  cbn [xrSessionRef frameRef canvasRef hitTestSourceRef].
  rewrite Hin, Hbody, Hcalls, Hsession, Hsource, Hframe.
  split; [apply remove_appended; exact Hfresh|].
  split; [reflexivity|].
  split; [reflexivity|].
  split; [|exact Ha].
  unfold handles_released. repeat split; try assumption.
  apply Hcv. intros c Hc'. rewrite Hrefs in Hc'. cbn in Hc'.
  injection Hc' as <-. apply existsb_eqb_In. exact Hin.
Qed.

Lemma launch_then_teardown_leaves_the_overlay_witness :
  let w2 := snd (endARSession (snd (launchAR true willing_platform print_8x10
                                      AR.initial))) in
  body (browser w2) = body (browser AR.initial)
  /\ overlays (browser w2) = S (overlays (browser AR.initial))
  /\ calls (browser w2)
     = calls (browser AR.initial)
       ++ [session_end 7%nat; removeChild (createElement_canvas willing_platform);
           hitTestSource_cancel 5%nat]
  /\ handles_released w2
  /\ arSessionActive w2 = false.
Proof.
  apply (launch_then_teardown_leaves_the_overlay willing_platform print_8x10
           AR.initial 7%nat 5%nat).
  - repeat split.
  - intros H. exact H.
  - reflexivity.
  - reflexivity.
  - reflexivity.
Defined.

(** ** The AR page: the active flag *)

Lemma flag_agrees_endARSession (w : World) :
  arSessionActive (snd (endARSession w))
  = isSome (xrSessionRef (refs (snd (endARSession w)))).
Proof.
  pose proof (endARSession_effect w) as (Hs & _ & _ & Ha & _).
  rewrite Hs, Ha. reflexivity.
Qed.

Lemma flag_agrees_launchAR
    (isARSupported : bool) (platform : Platform) (size : Size) (w : World) :
  arSessionActive w = isSome (xrSessionRef (refs w)) ->
  arSessionActive (snd (launchAR isARSupported platform size w))
  = isSome (xrSessionRef (refs (snd (launchAR isARSupported platform size w)))).
Proof.
  intros Hw. destruct isARSupported; [|exact Hw].
  destruct (all_steps_succeed platform) eqn:Hok.
  - destruct (launchAR_success platform size w Hok) as (Hrefs & Ha & _).
    cbv zeta in Hrefs, Ha. rewrite Hrefs, Ha.
    destruct (all_steps_succeed_inv platform Hok) as (s & c & h & ->).
    reflexivity.
  - rewrite launchAR_unfold. cbv zeta.
    pose proof (launchAR_try_outcome platform size
                  (snd (logDebug "→ launchAR()" w))) as Hout.
    rewrite Hok in Hout. destruct Hout as [[e He] _].
    destruct (launchAR_try platform size (snd (logDebug "→ launchAR()" w)))
      as [o w1].
    cbn [fst] in He. subst o. apply flag_agrees_endARSession.
Qed.

Lemma flag_agrees_turn (w : World) (e : N * Event) :
  arSessionActive w = isSome (xrSessionRef (refs w)) ->
  arSessionActive (turn w e) = isSome (xrSessionRef (refs (turn w e))).
Proof.
  intros Hw. unfold turn.
  set (w1 := with_browser _ w).
  assert (H1 : arSessionActive (fire_timers w1)
               = isSome (xrSessionRef (refs (fire_timers w1)))).
  { subst w1. destruct w as [[s f c ht] a [pl pg cam dg hh fb] [b con n ls cs ov]].
    run_handlers.
    destruct fb as [deadline|]; [|exact Hw].
    destruct (deadline <=? n + fst e)%N; [|exact Hw].
    destruct pl; run_handlers; exact Hw. }
  generalize dependent (fire_timers w1). clear.
  intros w Hw.
  destruct w as [[s f c ht] a [pl pg cam dg hh fb] [b con n ls cs ov]].
  destruct e as [d [results | id missing rendered | | ]]; cbn [snd].
  - run_handlers.
    destruct (existsb (String.eqb "select") ls); run_handlers; [|exact Hw].
    destruct ht; run_handlers; try exact Hw.
    destruct (negb (Datatypes.length results =? 0) && negb pl);
      run_handlers; [|exact Hw].
    destruct results as [|[[pose|]] rs]; run_handlers; exact Hw.
  - run_handlers.
    destruct (existsb (String.eqb "frame") ls); run_handlers; [|exact Hw].
    destruct missing; run_handlers; exact Hw.
  - unfold dispatch, registered, bind, read, when.
    cbn [browser listeners].
    destruct (existsb (String.eqb "end") ls); [|exact Hw].
    unfold onEnd, bind. rewrite logDebug_run.
    unfold update, call, update.
    apply flag_agrees_endARSession.
  - unfold dispatch, closeImageModal. apply flag_agrees_endARSession.
Qed.

(** X19: the session is flagged active exactly while a session is held.
    In every world the component goes through (first world, launches,
    turns of the event loop), [arSessionActive] is true if and only if
    [xrSessionRef] holds a session, and a canvas held by [canvasRef] is in
    the document: the launch button is disabled exactly while there is a
    session to tear down. *)
Theorem active_flag_tracks_session (w : World) :
  reachable w ->
  arSessionActive w = isSome (xrSessionRef (refs w))
  /\ canvas_in_document w.
Proof.
  induction 1 as [| sup platform size w Hreach [IHflag IHdoc]
                  | w e Hreach [IHflag IHdoc]].
  - split; [reflexivity | apply canvas_in_document_initial].
  - split; [apply flag_agrees_launchAR | apply canvas_in_document_launchAR];
      assumption.
  - split; [apply flag_agrees_turn | apply canvas_in_document_turn];
      assumption.
Qed.

Lemma active_flag_tracks_session_witness :
  let w := turn (snd (launchAR true willing_platform print_8x10 AR.initial))
             (16%N, frame 1%nat false standing) in
  arSessionActive w = isSome (xrSessionRef (refs w))
  /\ canvas_in_document w.
Proof.
  apply (active_flag_tracks_session
           (turn (snd (launchAR true willing_platform print_8x10 AR.initial))
              (16%N, frame 1%nat false standing))).
  apply reach_turn, reach_launch, reach_initial.
Defined.

(** ** The AR page: after the session's end *)

Lemma ended_turn (w : World) (e : N * Event) :
  ended w ->
  ended (turn w e)
  /\ pictureGroup (closure (turn w e)) = pictureGroup (closure w)
  /\ placements (turn w e) = placements w.
Proof.
  destruct w as [[s f c ht] a [pl pg cam dg hh fb] [b con n ls cs ov]].
  unfold ended. cbn [closure refs fallbackId hitTestSourceRef].
  intros [-> Hht].
  destruct e as [d [results | id missing rendered | | ]].
  - run_handlers.
    destruct (existsb (String.eqb "select") ls); run_handlers.
    + destruct ht; try discriminate Hht; run_handlers;
        repeat split; auto; count_lines.
    + repeat split; auto.
  - run_handlers.
    destruct (existsb (String.eqb "frame") ls); run_handlers.
    + destruct missing; run_handlers; repeat split; auto; count_lines.
    + repeat split; auto.
  - unfold turn, fire_timers.
    cbn [fst snd closure browser with_browser set_now now fallbackId].
    unfold dispatch, registered, bind, read, when.
    cbn [browser listeners with_browser set_now].
    destruct (existsb (String.eqb "end") ls); [|repeat split; auto].
    unfold onEnd, bind. rewrite logDebug_run. unfold update, call, update.
    match goal with
    | |- context [endARSession ?w0] =>
        pose proof (endARSession_effect w0) as (_ & _ & Hh & _ & Hcl & Hpl & _)
    end.
    cbv zeta in Hh, Hcl, Hpl. rewrite Hcl, Hpl, Hh.
    repeat split; count_lines.
  - unfold turn, fire_timers.
    cbn [fst snd closure browser with_browser set_now now fallbackId].
    unfold dispatch, closeImageModal.
    match goal with
    | |- context [endARSession ?w0] =>
        pose proof (endARSession_effect w0) as (_ & _ & Hh & _ & Hcl & Hpl & _)
    end.
    cbv zeta in Hh, Hcl, Hpl. rewrite Hcl, Hpl, Hh.
    repeat split.
Qed.

Lemma ended_run (events : list (N * Event)) (w : World) :
  ended w ->
  pictureGroup (closure (run events w)) = pictureGroup (closure w)
  /\ placements (run events w) = placements w.
Proof.
  revert w. induction events as [|e events IH]; intros w Hw; [split; reflexivity|].
  destruct (ended_turn w e Hw) as (Hw1 & Hg & Hp).
  cbn [run fold_left]. fold (run events (turn w e)).
  destruct (IH (turn w e) Hw1) as (Hg' & Hp').
  rewrite Hg', Hp'. auto.
Qed.

(** X20: once the session has announced its end nothing is placed any
    more.  After the turn that handles the session's end event (with the
    end listener registered), the pending fallback timer is cleared and the
    hit-test source released, and whatever events follow, the plane keeps
    its pose and no placement is logged. *)
Theorem nothing_is_placed_after_the_end
    (w : World) (d : N) (post : list (N * Event)) :
  registered "end" w = true ->
  let w1 := turn w (d, session_ended) in
  ended w1
  /\ pictureGroup (closure (run post w1)) = pictureGroup (closure w1)
  /\ placements (run post w1) = placements w1.
Proof.
  intros Hend. cbv zeta.
  assert (Hended : ended (turn w (d, session_ended))).
  { unfold turn. cbn [fst snd].
    set (w0 := fire_timers _).
    assert (Hreg : registered "end" w0 = true).
    { subst w0.
      destruct w as [[s f c ht] a [pl pg cam dg hh fb] [b con n ls cs ov]].
      run_handlers.
      destruct fb as [deadline|]; [|exact Hend].
      destruct (deadline <=? n + d)%N; [|exact Hend].
      destruct pl; run_handlers; exact Hend. }
    unfold dispatch, bind, read, when. rewrite Hreg.
    unfold onEnd, bind. rewrite logDebug_run. unfold update, call, update.
    match goal with
    | |- context [endARSession ?w3] =>
        pose proof (endARSession_effect w3) as (_ & _ & Hh & _ & Hcl & _)
    end.
    cbv zeta in Hh, Hcl. split; [rewrite Hcl; reflexivity | exact Hh]. }
  split; [exact Hended | apply ended_run; exact Hended].
Qed.

Lemma nothing_is_placed_after_the_end_witness :
  let w1 := turn set_up (1000%N, session_ended) in
  let post := [(10%N, select [ {| getPose := Some wall_pose |} ]);
               (6000%N, frame 2%nat false standing)] in
  ended w1
  /\ pictureGroup (closure (run post w1)) = pictureGroup (closure w1)
  /\ placements (run post w1) = placements w1.
Proof.
  apply (nothing_is_placed_after_the_end set_up 1000%N
           [(10%N, select [ {| getPose := Some wall_pose |} ]);
            (6000%N, frame 2%nat false standing)]).
  reflexivity.
Defined.

(** ** The debug panel *)

Lemma drop_oldest_skipn (fuel : nat) (lines : list string) :
  (List.length lines <= 200 + fuel)%nat ->
  DebugPanel.drop_oldest fuel lines = skipn (List.length lines - 200) lines.
Proof.
  revert lines. induction fuel as [|fuel IH]; intros lines Hlen;
    cbn [DebugPanel.drop_oldest].
  - replace (List.length lines - 200)%nat with 0%nat by lia. reflexivity.
  - destruct (Nat.ltb_spec 200 (List.length lines)) as [Hmore|Hfew].
    + destruct lines as [|line lines]; [cbn in Hmore; lia|].
      cbn [tl]. rewrite IH by (cbn [List.length] in Hlen; lia).
      cbn [List.length] in *.
      replace (S (List.length lines) - 200)%nat
        with (S (List.length lines - 200)) by lia.
      reflexivity.
    + replace (List.length lines - 200)%nat with 0%nat by lia. reflexivity.
Qed.

(** X21: the debug panel is a window on the last 200 lines.  Whatever the
    panel held, after [logDebug] it holds at most 200 lines: the line just
    written, which is the last one, preceded by the most recent of the
    earlier lines. *)
Theorem debug_panel_keeps_last_200
    (lines : list string) (args : list DebugPanel.Arg) :
  let text := String.concat " " (List.map DebugPanel.shown args) in
  exists kept,
    DebugPanel.logDebug (Some lines) args = Some kept
    /\ (List.length kept <= 200)%nat
    /\ kept = skipn (List.length lines + 1 - 200) (lines ++ [text])
    /\ exists older, kept = older ++ [text].
Proof.
  cbv zeta. unfold DebugPanel.logDebug.
  set (text := String.concat " " (List.map DebugPanel.shown args)).
  rewrite drop_oldest_skipn by lia.
  rewrite length_app. cbn [List.length].
  eexists. split; [reflexivity|].
  split; [rewrite length_skipn, length_app; cbn [List.length]; lia|].
  split; [reflexivity|].
  destruct (Nat.le_gt_cases (List.length lines + 1 - 200) (List.length lines))
    as [Hle|Hgt]; [|lia].
  rewrite skipn_app.
  replace (List.length lines + 1 - 200 - List.length lines)%nat with 0%nat by lia.
  exists (skipn (List.length lines + 1 - 200) lines). reflexivity.
Qed.

(** ** The page and the transform together *)

Lemma eqv_fin_finite (a : number) (q : Q) : (a =~ Fin q)%js -> isFinite a = true.
Proof. destruct a; simpl; try contradiction. reflexivity. Qed.

Lemma page_invariant_after (events : list Home.Event) (s : Home.State) :
  Home_invariant s -> Home.deliverable_trace s events ->
  Home_invariant (Home.run events s).
Proof.
  revert s. induction events as [|e events IH]; intros s Hinv Ht; [exact Hinv|].
  destruct Ht as [He Hrest]. rewrite Home_run_step.
  apply IH; [apply step_keeps_invariant; assumption | exact Hrest].
Qed.

(** X22: whatever the user does, the magnified view of the first image
    shows a finite crop that starts inside the image.  After any sequence
    of loads, resizes, moves and clicks the browser can deliver, once the
    first image (of positive size) is there and no longer loading, the
    page's magnified view renders the content, 400 by 400, with finite
    parameters and an origin within [0, imageWidth] x [0, imageHeight]. *)
Theorem page_always_shows_a_valid_crop
    (dom : Document) (events : list Home.Event) (img : ImageHandle) (wi hi : Q) :
  Home.deliverable_trace Home.initial events ->
  Home.image1 (Home.run events Home.initial) = Some img ->
  image_sizes dom img (Some img) wi hi wi hi ->
  exists r,
    Home_magnifiedView dom (Home.run events Home.initial) false
    = Content {| mvc_image := img; mvc_params := r;
                 mvc_width := Fin 400; mvc_height := Fin 400 |}
    /\ finiteParams r = true
    /\ (le_num (Fin 0) (x r) /\ le_num (x r) (Fin wi))
    /\ (le_num (Fin 0) (y r) /\ le_num (y r) (Fin hi)).
Proof.
  intros Htrace Himg Hsizes.
  assert (Hinit : Home_invariant Home.initial).
  { unfold Home_invariant, Home.on_stage. cbn. repeat split; discriminate. }
  pose proof (page_invariant_after events Home.initial Hinit Htrace)
    as (_ & (Hsw & Hsh) & Hpos).
  set (s := Home.run events Home.initial) in *.
  unfold Home_magnifiedView, MagnifiedView. rewrite Himg.
  rewrite getMagnifyParams_predefaulted.
  destruct (Home.stageDimensions s) as [sw sh]. cbn [dwidth dheight] in *.
  destruct (positive_fin _ Hsw) as (qsw & -> & Psw).
  destruct (positive_fin _ Hsh) as (qsh & -> & Psh).
  destruct (Home.magnifierPosition s) as [[mx| | |] [my| | |]];
    unfold Home.on_stage in Hpos; cbn in Hpos; try tauto.
  assert (Hset : positive_settings qsw qsh 400 400 0.5) by (repeat split; assumption).
  destruct (magnify_fields dom img (Some img) mx my qsw qsh 400 400 0.5 wi hi wi hi
              Hsizes Hset)
    as (r & Er & (Ex & Ey) & (Ezx & Ezy) & (Esw & Esh) & (Ecx & Ecy)).
  unfold magnify in Er. rewrite Er.
  exists r. split; [reflexivity|].
  destruct Hsizes as (_ & _ & (Pwi & Phi) & _).
  split.
  - unfold finiteParams.
    rewrite (eqv_fin_finite _ _ Ex), (eqv_fin_finite _ _ Ey),
      (eqv_fin_finite _ _ Ezx), (eqv_fin_finite _ _ Ezy), Esw, Esh, Ecx, Ecy.
    reflexivity.
  - destruct (eqv_fin_inv _ _ Ex) as (qx & -> & Hqx).
    destruct (eqv_fin_inv _ _ Ey) as (qy & -> & Hqy).
    cbn [le_num]. rewrite Hqx, Hqy.
    assert (P800 : 0 < 400 / 0.5) by reflexivity.
    pose proof (clamped_origin_range (mx / (qsw / wi)) (400 / 0.5) wi P800 Pwi)
      as [X0 X1].
    pose proof (clamped_origin_range (my / (qsh / hi)) (400 / 0.5) hi P800 Phi)
      as [Y0 Y1].
    split; apply rescaled_origin_range; assumption.
Qed.

Lemma page_always_shows_a_valid_crop_witness :
  exists r,
    Home_magnifiedView large_doc
      (Home.run
         [Home.loaded 0%nat (Fin 3000) (Fin 2000) {| offsetWidth := Fin 600 |};
          Home.click (Some {| px := Fin 100; py := Fin 50 |})]
         Home.initial) false
    = Content {| mvc_image := 0%nat; mvc_params := r;
                 mvc_width := Fin 400; mvc_height := Fin 400 |}
    /\ finiteParams r = true
    /\ (le_num (Fin 0) (x r) /\ le_num (x r) (Fin 3000))
    /\ (le_num (Fin 0) (y r) /\ le_num (y r) (Fin 2000)).
Proof.
  apply (page_always_shows_a_valid_crop large_doc
           [Home.loaded 0%nat (Fin 3000) (Fin 2000) {| offsetWidth := Fin 600 |};
            Home.click (Some {| px := Fin 100; py := Fin 50 |})]
           0%nat 3000 2000).
  - vm_compute. repeat split; discriminate.
  - reflexivity.
  - exact large_doc_image_sizes.
Defined.
